(** * sc-component-manager: the [components install] command

    A shallow embedding of
    [src/manager/commands/command_install/sc_component_manager_command_install.cpp]
    and the properties of its four member functions:
    [Execute], [ValidateComponent], [InstallDependencies] and
    [DownloadComponent].

    The command talks to three outside parties: the sc-memory knowledge base
    (through [ScMemoryContext] and the [componentUtils::SearchUtils] helpers),
    the file system ([stat], [sc_fs_mkdirs], [opendir]/[readdir]) and child
    processes ([ScExec], [ScsLoader]).  They are gathered in the class
    [Platform]; the command itself is written in a state-and-exception monad
    over a platform state and a trace of the calls it makes. *)

From Stdlib Require Import String Ascii NArith Lia.
From stdpp Require Import base strings list gmap.

Set Default Proof Using "Type".

(** ** [std::string] operations used by the command *)

Module StdString.

(** An index as [find]/[rfind] return it: [None] stands for
    [std::string::npos]. *)
Definition index := option nat.

Definition empty (s : string) : bool :=
  match s with EmptyString => true | String _ _ => false end.

(** [s.find(pat)]: position of the first occurrence of [pat]. *)
Fixpoint find (s pat : string) : index :=
  if String.prefix pat s then Some 0
  else match s with
       | EmptyString => None
       | String _ s' => S <$> find s' pat
       end.

(** [s.rfind(pat)]: position of the last occurrence of [pat]. *)
Fixpoint rfind (s pat : string) : index :=
  match s with
  | EmptyString => if String.prefix pat s then Some 0 else None
  | String _ s' =>
      match rfind s' pat with
      | Some i => Some (S i)
      | None => if String.prefix pat s then Some 0 else None
      end
  end.

(** [s.rfind(c)] for a single character. *)
Definition rfind_char (s : string) (c : ascii) : index :=
  rfind s (String c EmptyString).

Fixpoint drop_chars (n : nat) (s : string) : string :=
  match n, s with
  | 0, _ => s
  | S n', String _ s' => drop_chars n' s'
  | S _, EmptyString => EmptyString
  end.

(** [s.substr(pos)]: the characters from [pos] to the end; [None] is the
    [std::out_of_range] thrown when [pos > s.size()], which is the case
    of [npos]. *)
Definition substr (s : string) (pos : index) : option string :=
  match pos with
  | Some i => if i <=? String.length s then Some (drop_chars i s) else None
  | None => None
  end.

(** "[s] ends in [suffix]", the usual meaning of a file extension. *)
Fixpoint ends_with (s suffix : string) : bool :=
  String.eqb s suffix
  || match s with
     | EmptyString => false
     | String _ s' => ends_with s' suffix
     end.

End StdString.

(** The double quote character that the log messages embed. *)
Definition dquote : string := String "034"%char EmptyString.

(** ** Data model *)

(** [ScAddr], the handle of an element of the knowledge base, as its hash;
    [0] is [ScAddr::Empty], the value of a default-constructed address and
    of a failed lookup. *)
Definition ScAddr := N.
Definition ScAddr_Empty : ScAddr := 0%N.
Definition IsValid (addr : ScAddr) : bool := negb (N.eqb addr 0).

Definition ScAddrVector := list ScAddr.

(** [utils::ScException], of which the command logs message and description. *)
Record ScException := { Message : string; Description : string }.

(** The only standard exception the command can let escape. *)
Inductive StdException := out_of_range.

(** [std::map<std::string, std::vector<std::string>>] *)
Abbreviation CommandParameters := (gmap string (list string)).
(** [std::vector<std::string>] *)
Abbreviation ExecutionResult := (list string).

Inductive LogLevel := DEBUG | INFO | WARNING | ERROR.

(** What the command does to the outside, in the order it does it. *)
Inductive Event :=
  | Log (level : LogLevel) (message : string)
  | Mkdirs (path : string)
  | Exec (command : list string)
  | LoadScs (path : string).

(** ** The platform the command runs on *)

Class Platform (W : Type) := {
  (** [ScMemoryContext::HelperFindBySystemIdtf]; [ScAddr_Empty] when absent *)
  HelperFindBySystemIdtf : W -> string -> ScAddr;
  (** [ScMemoryContext::HelperGetSystemIdtf] *)
  HelperGetSystemIdtf : W -> ScAddr -> string;
  (** whether [Iterator3(concept_reusable_component, EdgeAccessConstPosPerm,
      addr)] has a first result *)
  is_reusable_component : W -> ScAddr -> bool;
  (** content of a link; [None] when the address holds no link *)
  link_content : W -> ScAddr -> option string;
  (** [componentUtils::SearchUtils], each of which may throw [ScException] *)
  GetComponentAddress : W -> ScAddr -> ScException + ScAddr;
  GetComponentInstallationMethod : W -> ScAddr -> ScException + ScAddr;
  GetComponentDependencies : W -> ScAddr -> ScException + ScAddrVector;
  (** [stat(path, &sb) == 0] *)
  stat_ok : W -> string -> bool;
  (** [sc_fs_mkdirs] *)
  sc_fs_mkdirs : string -> W -> W;
  (** running an [ScExec] command line *)
  ScExec : list string -> W -> W;
  (** [opendir] then [readdir] until exhausted; [None] when [opendir] fails *)
  read_directory : W -> string -> option (list string);
  (** [ScsLoader::loadScsFile] *)
  loadScsFile : string -> W -> W
}.

(** ** State, outcomes and the command monad *)

Record State (W : Type) := mkState { world : W; trace : list Event }.
Arguments mkState {W} _ _.
Arguments world {W} _.
Arguments trace {W} _.

Inductive Outcome (W A : Type) :=
  | Done (a : A) (s : State W)
  | Thrown (e : StdException) (s : State W)
  | OutOfFuel.
Arguments Done {W A} _ _.
Arguments Thrown {W A} _ _.
Arguments OutOfFuel {W A}.

Definition M (W A : Type) : Type := State W -> Outcome W A.

Definition ret {W A} (a : A) : M W A := fun s => Done a s.

Definition bind {W A B} (c : M W A) (k : A -> M W B) : M W B :=
  fun s =>
    match c s with
    | Done a s' => k a s'
    | Thrown e s' => Thrown e s'
    | OutOfFuel => OutOfFuel
    end.

Definition throw {W A} (e : StdException) : M W A := fun s => Thrown e s.
Definition out_of_fuel {W A} : M W A := fun _ => OutOfFuel.

Declare Scope cmd_scope.
Delimit Scope cmd_scope with cmd.
Notation "x <- c ;; k" := (bind c (fun x => k))
  (at level 100, c at next level, right associativity) : cmd_scope.
Notation "c ;; k" := (bind c (fun _ => k))
  (at level 100, k at level 200, right associativity) : cmd_scope.
Open Scope cmd_scope.

(** A query of the platform state. *)
Definition ask {W A} (q : W -> A) : M W A := fun s => Done (q (world s)) s.

Definition emit {W} (ev : Event) (s : State W) : State W :=
  mkState (world s) (trace s ++ [ev]).

(** An action on the platform state, recorded in the trace. *)
Definition perform {W} (f : W -> W) (ev : Event) : M W unit :=
  fun s => Done tt (emit ev (mkState (f (world s)) (trace s))).

Definition SC_LOG {W} (level : LogLevel) (message : string) : M W unit :=
  fun s => Done tt (emit (Log level message) s).

(** ** A small concrete platform

    A knowledge base of a few components, a disk and a table of remote
    repositories, on which the command can be run. *)

Module Demo.

Record Component := {
  idtf : string;
  reusable : bool;
  address : ScException + ScAddr;
  installation_method : ScException + ScAddr;
  dependencies : ScException + ScAddrVector
}.

Record World := {
  components : gmap N Component;
  identifiers : gmap string N;
  links : gmap N string;
  directories : gset string;
  remotes : gmap string (list string);
  listings : gmap string (list string);
  loaded : list string
}.

Definition not_found : ScException :=
  {| Message := "ItemNotFound"; Description := "no such relation" |}.

Definition query {A} (w : World) (addr : ScAddr)
    (field : Component -> ScException + A) : ScException + A :=
  match components w !! addr with
  | Some c => field c
  | None => inl not_found
  end.

Definition mkdirs (path : string) (w : World) : World :=
  {| components := components w; identifiers := identifiers w;
     links := links w; directories := {[ path ]} ∪ directories w;
     remotes := remotes w; listings := listings w; loaded := loaded w |}.

(** [cd dir && git clone url] leaves the files of the repository in the
    directory named after the last path segment of [url]. *)
Definition exec (command : list string) (w : World) : World :=
  match command with
  | [_; dir; _; _; url] =>
      match remotes w !! url,
            StdString.substr url (StdString.rfind_char url "/") with
      | Some files, Some segment =>
          {| components := components w; identifiers := identifiers w;
             links := links w;
             directories := {[ dir +:+ segment ]} ∪ directories w;
             remotes := remotes w;
             listings := <[ dir +:+ segment := files ]> (listings w);
             loaded := loaded w |}
      | _, _ => w
      end
  | _ => w
  end.

Definition load (path : string) (w : World) : World :=
  {| components := components w; identifiers := identifiers w;
     links := links w; directories := directories w;
     remotes := remotes w; listings := listings w;
     loaded := loaded w ++ [path] |}.

#[export] Instance platform : Platform World := {|
  HelperFindBySystemIdtf w id := default ScAddr_Empty (identifiers w !! id);
  HelperGetSystemIdtf w addr :=
    default EmptyString (idtf <$> components w !! addr);
  is_reusable_component w addr :=
    default false (reusable <$> components w !! addr);
  link_content w addr := links w !! addr;
  GetComponentAddress w addr := query w addr address;
  GetComponentInstallationMethod w addr := query w addr installation_method;
  GetComponentDependencies w addr := query w addr dependencies;
  stat_ok w path := bool_decide (path ∈ directories w);
  sc_fs_mkdirs := mkdirs;
  ScExec := exec;
  read_directory w path := listings w !! path;
  loadScsFile := load
|}.

Definition PARAMETER_NAME : string := "idtf".
Definition GITHUB_PREFIX : string := "https://github.com/".
Definition specifications_path : string := "/specs".

(** A well-formed component [n]: reusable, address link [100 + n],
    installation method [200 + n]. *)
Definition component (n : N) (name : string) (deps : ScAddrVector)
  : Component :=
  {| idtf := name; reusable := true; address := inr (100 + n)%N;
     installation_method := inr (200 + n)%N; dependencies := inr deps |}.

Definition store : list (N * Component) :=
  [ (1, component 1 "cycle_a" [2]);
    (2, component 2 "cycle_b" [1]);
    (3, component 3 "app" [4]);
    (4, component 4 "lib" []);
    (5, component 5 "gate_a" [6]);
    (6, {| idtf := "gate_b"; reusable := false; address := inr 106;
           installation_method := inr 206; dependencies := inr [5] |});
    (7, component 7 "local" []);
    (8, {| idtf := "broken_address"; reusable := true;
           address := inl not_found;
           installation_method := inr 208; dependencies := inr [] |});
    (9, {| idtf := "broken_method"; reusable := true; address := inr 109;
           installation_method := inl not_found; dependencies := inr [] |});
    (10, component 10 "suite" [4; 7]) ]%N.

Definition initial : World :=
  {| components := list_to_map store;
     identifiers := list_to_map ((fun '(n, c) => (idtf c, n)) <$> store);
     links :=
       list_to_map
         [ (101, "https://github.com/demo/cycle_a");
           (102, "https://github.com/demo/cycle_b");
           (103, "https://github.com/demo/app");
           (104, "https://github.com/demo/lib");
           (105, "https://github.com/demo/gate_a");
           (106, "https://github.com/demo/gate_b");
           (107, "file:///opt/components/local");
           (109, "https://github.com/demo/broken_method");
           (110, "https://github.com/demo/suite") ]%N;
     directories := {[ "/specs"; "/specs/lib" ]};
     remotes :=
       list_to_map
         [ ("https://github.com/demo/app", [ "."; ".."; "app.scs"; "README.md" ]);
           ("https://github.com/demo/lib",
            [ "."; ".."; "lib.scs"; "notes.scs.txt"; "LICENSE" ]) ];
     listings := ∅;
     loaded := [] |}.

Definition start : State World := mkState initial [].

End Demo.

(** ** A store with a proxied address

    One component on the platform of [Demo], whose address goes through a
    proxy in front of GitHub: the GitHub prefix is in the address, but not
    at its start. *)

Module Proxied.

Definition initial : Demo.World :=
  {| Demo.components := {[ 1%N := Demo.component 1 "proxied" [] ]};
     Demo.identifiers := {[ "proxied" := 1%N ]};
     Demo.links :=
       {[ 101%N := "https://ghproxy.example/https://github.com/demo/lib" ]};
     Demo.directories := {[ "/specs" ]};
     Demo.remotes := ∅;
     Demo.listings := ∅;
     Demo.loaded := [] |}.

End Proxied.

(** ** The command *)

Section Command.

Context {W : Type} `{Platform W}.

(** [PARAMETER_NAME] and [GitHubConstants::GITHUB_PREFIX] come from
    headers of the project ([command_init_constants.hpp] and the command's
    own header); [m_specificationsPath] is the member set by the
    constructor. *)
Variable PARAMETER_NAME : string.
Variable GITHUB_PREFIX : string.
Variable m_specificationsPath : string.

(** [try { x = lookup(...); } catch (utils::ScException const & e)
    { SC_LOG_ERROR(e.Message()); SC_LOG_ERROR(e.Description()); }]
    with [x] keeping its initial value when the lookup throws. *)
Definition try_lookup {A} (lookup : W -> ScException + A) (initial : A)
  : M W A :=
  r <- ask lookup ;;
  match r with
  | inr a => ret a
  | inl exception =>
      SC_LOG ERROR (Message exception) ;;
      SC_LOG ERROR (Description exception) ;;
      ret initial
  end.

(** [context->GetLinkContent(addr, content)]: the string is written only
    when [addr] is a link of the store; the boolean the call returns is
    ignored by the command. *)
Definition GetLinkContent (addr : ScAddr) (content : string) : M W string :=
  ask (fun w =>
         if IsValid addr
         then match link_content w addr with
              | Some stored => stored
              | None => content
              end
         else content).

(** *** ValidateComponent (lines 70-128) *)

Definition ValidateComponent (componentAddr : ScAddr) : M W bool :=
  if negb (IsValid componentAddr) then
    SC_LOG WARNING "Component not found. Unable to install" ;;
    ret false
  else
    reusable <- ask (fun w => is_reusable_component w componentAddr) ;;
    if negb reusable then
      SC_LOG WARNING "Component is not a reusable component." ;;
      ret false
    else
      componentAddressAddr <-
        try_lookup (fun w => GetComponentAddress w componentAddr)
                   ScAddr_Empty ;;
      componentAddressContent <-
        GetLinkContent componentAddressAddr EmptyString ;;
      if StdString.empty componentAddressContent then
        SC_LOG WARNING "Component address not found." ;;
        ret false
      else
        componentInstallationMethod <-
          try_lookup (fun w => GetComponentInstallationMethod w componentAddr)
                     ScAddr_Empty ;;
        if negb (IsValid componentInstallationMethod) then
          SC_LOG WARNING "Component installation method not found." ;;
          ret false
        else ret true.

(** *** DownloadComponent (lines 177-226) *)

(** The [while (stat(componentDirName) == 0) componentDirName += segment]
    loop of lines 199-202. *)
Fixpoint free_dir_name (fuel : nat) (w : W) (segment componentDirName : string)
  : option string :=
  match fuel with
  | 0 => None
  | S fuel' =>
      if stat_ok w componentDirName
      then free_dir_name fuel' w segment (componentDirName +:+ segment)
      else Some componentDirName
  end.

Definition choose_dir_name (fuel : nat) (segment componentDirName : string)
  : M W string :=
  fun s =>
    match free_dir_name fuel (world s) segment componentDirName with
    | Some name => Done name s
    | None => OutOfFuel
    end.

(** The [readdir] loop of lines 215-222. *)
Fixpoint load_entries (componentDirName : string) (entries : list string)
  : M W unit :=
  match entries with
  | [] => ret tt
  | filename :: rest =>
      (if StdString.rfind filename ".scs" is Some _ then
         let path := componentDirName +:+ "/" +:+ filename in
         perform (loadScsFile path) (LoadScs path)
       else ret tt) ;;
      load_entries componentDirName rest
  end.

(** Lines 203-224: what is done once the directory name is settled. *)
Definition clone_and_load
    (componentAddressContent segment componentDirName : string) : M W unit :=
  perform (sc_fs_mkdirs componentDirName) (Mkdirs componentDirName) ;;
  (let command :=
     ["cd"; componentDirName; "&&"; "git clone "; componentAddressContent] in
   perform (ScExec command) (Exec command)) ;;
  let componentDirName := componentDirName +:+ segment in
  dir <- ask (fun w => read_directory w componentDirName) ;;
  match dir with
  | Some entries => load_entries componentDirName entries
  | None => ret tt
  end.

Definition DownloadComponent (fuel : nat) (componentAddr : ScAddr)
  : M W unit :=
  componentAddressAddr <-
    try_lookup (fun w => GetComponentAddress w componentAddr) ScAddr_Empty ;;
  componentAddressContent <-
    GetLinkContent componentAddressAddr EmptyString ;;
  if StdString.find componentAddressContent GITHUB_PREFIX is Some _ then
    let componentDirNameIndex :=
      StdString.rfind_char componentAddressContent "/" in
    match StdString.substr componentAddressContent componentDirNameIndex with
    | None => throw out_of_range
    | Some segment =>
        componentDirName <-
          choose_dir_name fuel segment (m_specificationsPath +:+ segment) ;;
        clone_and_load componentAddressContent segment componentDirName
    end
  else ret tt.

(** *** InstallDependencies (lines 136-172) *)

(** How the [for] loop over the dependencies is left: by its [return]
    (line 166) or by running off the end of the list. *)
Inductive LoopExit :=
  | Returned (dependencyResult : ExecutionResult)
  | Completed (result : ExecutionResult).

Definition exit_value (e : LoopExit) : ExecutionResult :=
  match e with Returned r => r | Completed r => r end.

(** The recursive call is a parameter here; [Execute] below ties the
    knot. *)
Section Dependencies.

Variable Execute : CommandParameters -> M W ExecutionResult.

Fixpoint dependencies_loop
    (componentDependencies : ScAddrVector) (result : ExecutionResult)
  : M W LoopExit :=
  match componentDependencies with
  | [] => ret (Completed result)
  | componentDependency :: rest =>
      dependencyIdtf <-
        ask (fun w => HelperGetSystemIdtf w componentDependency) ;;
      SC_LOG INFO ("ScComponentManager: Install dependency " +:+ dquote
                   +:+ dependencyIdtf +:+ dquote) ;;
      let dependencyParameters : CommandParameters :=
        {[ PARAMETER_NAME := [dependencyIdtf] ]} in
      dependencyResult <- Execute dependencyParameters ;;
      match dependencyResult with
      | [] =>
          SC_LOG ERROR ("Dependency " +:+ dquote +:+ dependencyIdtf
                        +:+ dquote +:+ " is not installed") ;;
          ret (Returned dependencyResult)
      | _ :: _ => dependencies_loop rest (dependencyResult ++ result)
      end
  end.

Definition InstallDependencies_with (componentAddr : ScAddr)
  : M W ExecutionResult :=
  componentDependencies <-
    try_lookup (fun w => GetComponentDependencies w componentAddr) [] ;;
  e <- dependencies_loop componentDependencies [] ;;
  ret (exit_value e).

(** The [for] loop of [Execute] (lines 39-56); [result] is not touched
    by it. *)
Fixpoint install_components (fuel : nat) (componentsToInstall : list string)
  : M W unit :=
  match componentsToInstall with
  | [] => ret tt
  | componentToInstallIdentifier :: rest =>
      componentAddr <-
        ask (fun w =>
               HelperFindBySystemIdtf w componentToInstallIdentifier) ;;
      SC_LOG DEBUG ("Validating component " +:+ dquote
                    +:+ componentToInstallIdentifier) ;;
      valid <- ValidateComponent componentAddr ;;
      if negb valid then
        SC_LOG WARNING ("Unable to install component " +:+ dquote
                        +:+ componentToInstallIdentifier) ;;
        install_components fuel rest
      else
        SC_LOG DEBUG ("Component " +:+ dquote
                      +:+ componentToInstallIdentifier +:+ dquote
                      +:+ " is specified correctly") ;;
        InstallDependencies_with componentAddr ;;
        DownloadComponent fuel componentAddr ;;
        install_components fuel rest
  end.

End Dependencies.

(** *** Execute (lines 19-59) *)

(** [fuel] bounds the depth of the [Execute]/[InstallDependencies]
    recursion and the number of turns of the directory-name loop. *)
Fixpoint Execute (fuel : nat) (commandParameters : CommandParameters)
  : M W ExecutionResult :=
  match fuel with
  | 0 => out_of_fuel
  | S fuel' =>
      let result : ExecutionResult := [] in
      match commandParameters !! PARAMETER_NAME with
      | None =>
          SC_LOG INFO
            "No identifier provided, installing all to install components" ;;
          ret result
      | Some componentsToInstall =>
          install_components (Execute fuel') fuel' componentsToInstall ;;
          ret result
      end
  end.

Definition InstallDependencies (fuel : nat) (componentAddr : ScAddr)
  : M W ExecutionResult :=
  InstallDependencies_with (Execute fuel) componentAddr.

(** ** Vocabulary of the properties *)

(** [evs] appended to the trace, the platform state untouched. *)
Definition emit_all (evs : list Event) (s : State W) : State W :=
  mkState (world s) (trace s ++ evs).

(** The two error lines a caught [ScException] leaves in the log. *)
Definition lookup_errors {A} (r : ScException + A) : list Event :=
  match r with
  | inl exception =>
      [Log ERROR (Message exception); Log ERROR (Description exception)]
  | inr _ => []
  end.

(** The string that lines 88-101 and 179-191 leave in
    [componentAddressContent]. *)
Definition resolved_address_content (w : W) (componentAddr : ScAddr)
  : string :=
  match GetComponentAddress w componentAddr with
  | inr addr =>
      if IsValid addr then default EmptyString (link_content w addr)
      else EmptyString
  | inl _ => EmptyString
  end.

(** The four conditions of validation, as the documentation of
    [ValidateComponent] lists them. *)
Definition component_exists (componentAddr : ScAddr) : Prop :=
  IsValid componentAddr = true.

Definition component_is_reusable (w : W) (componentAddr : ScAddr) : Prop :=
  is_reusable_component w componentAddr = true.

Definition address_link_is_valid (w : W) (componentAddr : ScAddr) : Prop :=
  exists addr content,
    GetComponentAddress w componentAddr = inr addr
    /\ IsValid addr = true
    /\ link_content w addr = Some content
    /\ content <> EmptyString.

Definition installation_method_is_valid (w : W) (componentAddr : ScAddr)
  : Prop :=
  exists method,
    GetComponentInstallationMethod w componentAddr = inr method
    /\ IsValid method = true.

(** The same verdict and the log lines of a validation, as functions of
    the store. *)
Definition has_installation_method (w : W) (componentAddr : ScAddr) : bool :=
  match GetComponentInstallationMethod w componentAddr with
  | inr method => IsValid method
  | inl _ => false
  end.

Definition validation_verdict (w : W) (componentAddr : ScAddr) : bool :=
  IsValid componentAddr
  && is_reusable_component w componentAddr
  && negb (StdString.empty (resolved_address_content w componentAddr))
  && has_installation_method w componentAddr.

Definition validation_log (w : W) (componentAddr : ScAddr) : list Event :=
  if negb (IsValid componentAddr) then
    [Log WARNING "Component not found. Unable to install"]
  else if negb (is_reusable_component w componentAddr) then
    [Log WARNING "Component is not a reusable component."]
  else
    lookup_errors (GetComponentAddress w componentAddr)
    ++ if StdString.empty (resolved_address_content w componentAddr) then
         [Log WARNING "Component address not found."]
       else
         lookup_errors (GetComponentInstallationMethod w componentAddr)
         ++ if has_installation_method w componentAddr then []
            else [Log WARNING "Component installation method not found."].

(** The candidate directory names, in the order the loop of lines 198-202
    tries them: [root + segment], [root + segment + segment], ... *)
Fixpoint staging_name (root segment : string) (k : nat) : string :=
  match k with
  | 0 => root +:+ segment
  | S k' => staging_name root segment k' +:+ segment
  end.

(** The log lines of a requested identifier that names no component. *)
Definition rejection_log (identifier : string) : list Event :=
  [ Log DEBUG ("Validating component " +:+ dquote +:+ identifier);
    Log WARNING "Component not found. Unable to install";
    Log WARNING ("Unable to install component " +:+ dquote +:+ identifier) ].

(** A log line, as opposed to an event that touches the disk, a process
    or the loader. *)
Definition is_log (ev : Event) : bool :=
  match ev with Log _ _ => true | _ => false end.

(** The dependency graph of the store. *)
Definition depends_on (w : W) (a b : ScAddr) : Prop :=
  exists deps, GetComponentDependencies w a = inr deps /\ b ∈ deps.

(** [a] reaches a cycle of the dependency graph. *)
Definition reaches_cycle (w : W) (a : ScAddr) : Prop :=
  exists b, rtc (depends_on w) a b /\ tc (depends_on w) b b.

(** The step the recursion takes: from a requested identifier whose
    component passes validation to the identifier of the first entry of its
    dependency list, which [InstallDependencies] hands to [Execute] before
    anything else is done for the component. *)
Definition next_install (w : W) (identifier identifier' : string) : Prop :=
  let componentAddr := HelperFindBySystemIdtf w identifier in
  validation_verdict w componentAddr = true
  /\ exists d rest,
       GetComponentDependencies w componentAddr = inr (d :: rest)
       /\ identifier' = HelperGetSystemIdtf w d.

(** Following those steps from [identifier] leads into a cycle. *)
Definition install_chain_cycles (w : W) (identifier : string) : Prop :=
  exists identifier',
    rtc (next_install w) identifier identifier'
    /\ tc (next_install w) identifier' identifier'.

(** A computation that only ever appends to the trace. *)
Definition grows {A} (c : M W A) : Prop :=
  forall s,
    match c s with
    | Done _ s' | Thrown _ s' => trace s `prefix_of` trace s'
    | OutOfFuel => True
    end.

(** A run that ends, by a [return] or by an exception. *)
Definition terminates {A} (o : Outcome W A) : Prop :=
  match o with OutOfFuel => False | _ => True end.

(** The change to the platform that an event of the trace stands for. *)
Definition apply_event (ev : Event) (w : W) : W :=
  match ev with
  | Log _ _ => w
  | Mkdirs path => sc_fs_mkdirs path w
  | Exec command => ScExec command w
  | LoadScs path => loadScsFile path w
  end.

Definition replay (evs : list Event) (w : W) : W :=
  foldl (fun w ev => apply_event ev w) w evs.

(** A computation that changes the platform only by what it records, each
    recorded event satisfying [P]. *)
Definition journals (P : Event -> Prop) {A} (c : M W A) : Prop :=
  forall s,
    match c s with
    | Done _ s' | Thrown _ s' =>
        exists evs,
          trace s' = trace s ++ evs
          /\ world s' = replay evs (world s)
          /\ Forall P evs
    | OutOfFuel => True
    end.

(** An event that stays under [m_specificationsPath]: a directory made or
    a file loaded there, a [git clone] run in a directory there. *)
Definition under_specifications_path (ev : Event) : Prop :=
  match ev with
  | Log _ _ => True
  | Mkdirs path => String.prefix m_specificationsPath path = true
  | Exec command =>
      exists dir url,
        command = ["cd"; dir; "&&"; "git clone "; url]
        /\ String.prefix m_specificationsPath dir = true
  | LoadScs path => String.prefix m_specificationsPath path = true
  end.

(** Every path that [stat] finds is one of [paths]. *)
Definition disk_within (w : W) (paths : list string) : Prop :=
  forall path, stat_ok w path = true -> path ∈ paths.

(** The entries of a directory that the [readdir] loop hands to the
    loader. *)
Definition loaded_entries (entries : list string) : list string :=
  filter (fun filename => is_Some (StdString.rfind filename ".scs")) entries.

(** ** Properties *)

(** *** States and traces *)

(** Two states that differ only in how their traces are bracketed. *)
Ltac same_state :=
  unfold ret, SC_LOG, perform, emit, emit_all; simpl;
  rewrite <- ?app_assoc; simpl; rewrite ?app_nil_r; reflexivity.

Lemma emit_all_nil (s : State W) : emit_all [] s = s.
Proof. destruct s as [w tr]. unfold emit_all. simpl. by rewrite app_nil_r. Qed.

Lemma emit_all_app (evs evs' : list Event) (s : State W) :
  emit_all evs' (emit_all evs s) = emit_all (evs ++ evs') s.
Proof. unfold emit_all. simpl. by rewrite app_assoc. Qed.

Lemma emit_emit_all (ev : Event) (evs : list Event) (s : State W) :
  emit ev (emit_all evs s) = emit_all (evs ++ [ev]) s.
Proof. apply (emit_all_app evs [ev]). Qed.

Lemma world_emit_all (evs : list Event) (s : State W) :
  world (emit_all evs s) = world s.
Proof. reflexivity. Qed.

Lemma try_lookup_run {A} (lookup : W -> ScException + A) (initial : A)
    (s : State W) :
  try_lookup lookup initial s
  = Done (match lookup (world s) with inr a => a | inl _ => initial end)
         (emit_all (lookup_errors (lookup (world s))) s).
Proof.
  unfold try_lookup, bind, ask. destruct (lookup (world s)) as [ex | a]; simpl.
  - unfold SC_LOG, ret, emit_all, emit. simpl. by rewrite <- app_assoc.
  - unfold ret. by rewrite emit_all_nil.
Qed.

Lemma resolved_address_content_run (componentAddr : ScAddr) (s : State W) :
  (componentAddressAddr <-
     try_lookup (fun w => GetComponentAddress w componentAddr) ScAddr_Empty ;;
   GetLinkContent componentAddressAddr EmptyString) s
  = Done (resolved_address_content (world s) componentAddr)
         (emit_all (lookup_errors (GetComponentAddress (world s) componentAddr))
                   s).
Proof.
  unfold bind. rewrite try_lookup_run. unfold GetLinkContent, ask.
  rewrite world_emit_all. unfold resolved_address_content.
  destruct (GetComponentAddress (world s) componentAddr) as [ex | addr];
    [reflexivity |].
  destruct (IsValid addr); [| reflexivity].
  by destruct (link_content (world s) addr).
Qed.

(** *** ValidateComponent *)

(** A validation always returns, with a verdict and log lines that the
    store alone determines, and leaves the platform as it was. *)
Lemma ValidateComponent_run (componentAddr : ScAddr) (s : State W) :
  ValidateComponent componentAddr s
  = Done (validation_verdict (world s) componentAddr)
         (emit_all (validation_log (world s) componentAddr) s).
Proof.
  unfold ValidateComponent, validation_verdict, validation_log.
  destruct (IsValid componentAddr); simpl; [| reflexivity].
  unfold bind at 1. unfold ask at 1.
  destruct (is_reusable_component (world s) componentAddr); simpl;
    [| reflexivity].
  pose proof (resolved_address_content_run componentAddr s) as Hc.
  unfold bind in Hc |- *.
  destruct (try_lookup _ ScAddr_Empty s) as [addr s1 | |]; try discriminate.
  rewrite Hc.
  destruct (StdString.empty _); simpl.
  - same_state.
  - rewrite try_lookup_run, world_emit_all. unfold has_installation_method.
    destruct (GetComponentInstallationMethod (world s) componentAddr)
      as [ex | method]; simpl.
    + same_state.
    + destruct (IsValid method); simpl; same_state.
Qed.

Lemma address_link_is_valid_iff (w : W) (componentAddr : ScAddr) :
  address_link_is_valid w componentAddr
  <-> StdString.empty (resolved_address_content w componentAddr) = false.
Proof.
  unfold address_link_is_valid, resolved_address_content. split.
  - intros (addr & content & -> & -> & -> & Hne). simpl.
    by destruct content.
  - destruct (GetComponentAddress w componentAddr) as [ex | addr];
      [discriminate |].
    destruct (IsValid addr) eqn:Hv; [| discriminate].
    destruct (link_content w addr) as [content |] eqn:Hl; [| discriminate].
    simpl. intros He. exists addr, content. repeat split; try done.
    intros ->. discriminate.
Qed.

Lemma installation_method_is_valid_iff (w : W) (componentAddr : ScAddr) :
  installation_method_is_valid w componentAddr
  <-> has_installation_method w componentAddr = true.
Proof.
  unfold installation_method_is_valid, has_installation_method. split.
  - by intros (method & -> & ->).
  - destruct (GetComponentInstallationMethod w componentAddr)
      as [ex | method]; [discriminate |].
    intros Hv. by exists method.
Qed.

Lemma validation_verdict_iff (w : W) (componentAddr : ScAddr) :
  validation_verdict w componentAddr = true
  <-> component_exists componentAddr
      /\ component_is_reusable w componentAddr
      /\ address_link_is_valid w componentAddr
      /\ installation_method_is_valid w componentAddr.
Proof.
  unfold validation_verdict, component_exists, component_is_reusable.
  rewrite address_link_is_valid_iff, installation_method_is_valid_iff.
  rewrite !andb_true_iff, negb_true_iff. tauto.
Qed.

(** C2. [ValidateComponent] returns [true] exactly when the component
    exists, is tagged reusable, has a non-empty address link and a valid
    installation method.  The checks are made in that order and the first
    one that fails ends the validation: the warning it logs is the last
    line, and nothing of the later checks is logged.  In particular a
    component without the reusable tag is rejected whatever else it has. *)
Theorem ValidateComponent_checks (componentAddr : ScAddr) (s : State W) :
  exists verdict log,
    ValidateComponent componentAddr s = Done verdict (emit_all log s)
    /\ (verdict = true
        <-> component_exists componentAddr
            /\ component_is_reusable (world s) componentAddr
            /\ address_link_is_valid (world s) componentAddr
            /\ installation_method_is_valid (world s) componentAddr)
    /\ (~ component_exists componentAddr ->
        log = [Log WARNING "Component not found. Unable to install"])
    /\ (component_exists componentAddr ->
        ~ component_is_reusable (world s) componentAddr ->
        log = [Log WARNING "Component is not a reusable component."])
    /\ (component_exists componentAddr ->
        component_is_reusable (world s) componentAddr ->
        ~ address_link_is_valid (world s) componentAddr ->
        log = lookup_errors (GetComponentAddress (world s) componentAddr)
              ++ [Log WARNING "Component address not found."])
    /\ (component_exists componentAddr ->
        component_is_reusable (world s) componentAddr ->
        address_link_is_valid (world s) componentAddr ->
        ~ installation_method_is_valid (world s) componentAddr ->
        log = lookup_errors
                (GetComponentInstallationMethod (world s) componentAddr)
              ++ [Log WARNING "Component installation method not found."])
    /\ (~ component_is_reusable (world s) componentAddr -> verdict = false).
Proof.
  exists (validation_verdict (world s) componentAddr),
         (validation_log (world s) componentAddr).
  split; [apply ValidateComponent_run |].
  split; [apply validation_verdict_iff |].
  unfold validation_log, component_exists, component_is_reusable.
  repeat split.
  - intros Hc. by destruct (IsValid componentAddr).
  - intros -> Hr. simpl.
    by destruct (is_reusable_component (world s) componentAddr).
  - intros -> -> He. rewrite address_link_is_valid_iff in He. simpl.
    destruct (StdString.empty _); [reflexivity | done].
  - intros -> -> Ha Hm. rewrite installation_method_is_valid_iff in Hm.
    apply address_link_is_valid_iff in Ha as Hne. rewrite Hne. simpl.
    destruct Ha as (addr & content & -> & _). simpl.
    by destruct (has_installation_method (world s) componentAddr).
  - intros Hr. unfold validation_verdict.
    destruct (is_reusable_component (world s) componentAddr); [done |].
    by rewrite andb_false_r.
Qed.

(** C4. An [ScException] thrown by the address lookup or by the
    installation-method lookup is caught inside [ValidateComponent]: its
    message and description are logged as errors, the component is
    rejected with the same warning as when the address or the method is
    absent, and the validation returns normally, as it always does. *)
Theorem ValidateComponent_catches_store_errors
    (componentAddr : ScAddr) (s : State W) :
  (exists verdict s',
     ValidateComponent componentAddr s = Done verdict s'
     /\ world s' = world s)
  /\ (forall exception,
        component_exists componentAddr ->
        component_is_reusable (world s) componentAddr ->
        GetComponentAddress (world s) componentAddr = inl exception ->
        ValidateComponent componentAddr s
        = Done false
            (emit_all [ Log ERROR (Message exception);
                        Log ERROR (Description exception);
                        Log WARNING "Component address not found." ] s))
  /\ (forall exception,
        component_exists componentAddr ->
        component_is_reusable (world s) componentAddr ->
        address_link_is_valid (world s) componentAddr ->
        GetComponentInstallationMethod (world s) componentAddr
        = inl exception ->
        ValidateComponent componentAddr s
        = Done false
            (emit_all [ Log ERROR (Message exception);
                        Log ERROR (Description exception);
                        Log WARNING "Component installation method not found." ]
               s)).
Proof.
  rewrite ValidateComponent_run. split; [by eauto |].
  unfold component_exists, component_is_reusable.
  unfold validation_verdict, validation_log. split.
  - intros ex -> -> Hex. unfold resolved_address_content.
    rewrite Hex. reflexivity.
  - intros ex -> -> Ha Hex. apply address_link_is_valid_iff in Ha as Hne.
    rewrite Hne. unfold has_installation_method. rewrite Hex. simpl.
    destruct Ha as (addr & content & -> & _). reflexivity.
Qed.

(** *** DownloadComponent *)

(** Lines 179-191 resolve the address string; the rest of the function
    runs on it. *)
Lemma DownloadComponent_run (fuel : nat) (componentAddr : ScAddr)
    (s : State W) :
  DownloadComponent fuel componentAddr s
  = (let componentAddressContent :=
       resolved_address_content (world s) componentAddr in
     if StdString.find componentAddressContent GITHUB_PREFIX is Some _ then
       match StdString.substr componentAddressContent
               (StdString.rfind_char componentAddressContent "/") with
       | None => throw out_of_range
       | Some segment =>
           componentDirName <-
             choose_dir_name fuel segment (m_specificationsPath +:+ segment) ;;
           clone_and_load componentAddressContent segment componentDirName
       end
     else ret tt)
      (emit_all (lookup_errors (GetComponentAddress (world s) componentAddr))
                s).
Proof.
  unfold DownloadComponent.
  pose proof (resolved_address_content_run componentAddr s) as Hc.
  unfold bind in Hc |- *.
  destruct (try_lookup _ ScAddr_Empty s) as [addr s1 | |]; try discriminate.
  by rewrite Hc.
Qed.

(** The loop stops at the first candidate that [stat] does not find. *)
Lemma free_dir_name_first_free (w : W) (root segment : string) :
  forall k j fuel,
    stat_ok w (staging_name root segment (j + k)) = false ->
    k < fuel ->
    exists k0,
      k0 <= k
      /\ free_dir_name fuel w segment (staging_name root segment j)
         = Some (staging_name root segment (j + k0))
      /\ stat_ok w (staging_name root segment (j + k0)) = false
      /\ forall i, i < k0 ->
                   stat_ok w (staging_name root segment (j + i)) = true.
Proof.
  induction k as [| k IH]; intros j fuel Hfree Hfuel.
  - destruct fuel as [| fuel]; [lia |]. exists 0.
    rewrite Nat.add_0_r in *. simpl. rewrite Hfree.
    split_and!; [lia | done | done | intros i Hi; lia].
  - destruct fuel as [| fuel]; [lia |]. simpl.
    destruct (stat_ok w (staging_name root segment j)) eqn:Hj.
    + destruct (IH (S j) fuel) as (k0 & Hle & Hrun & Hk0 & Hbelow).
      { by replace (S j + k) with (j + S k) by lia. }
      { lia. }
      exists (S k0). replace (j + S k0) with (S j + k0) by lia.
      split_and!; [lia | exact Hrun | exact Hk0 |].
      intros [| i] Hi.
      * by rewrite Nat.add_0_r.
      * replace (j + S i) with (S j + i) by lia. apply Hbelow. lia.
    + exists 0. rewrite Nat.add_0_r.
      split_and!; [lia | done | done | intros i Hi; lia].
Qed.

(** X18. When the GitHub prefix occurs nowhere in the address string of
    the component (the test of line 192 fails), [DownloadComponent] returns
    normally with the platform untouched: no directory is made, no process
    run, no file loaded.  The only lines it can have logged are the two
    error lines of a failed address lookup; with the address resolved, the
    state is exactly the one it started from. *)
Theorem DownloadComponent_unrecognized_address_is_noop
    (fuel : nat) (componentAddr : ScAddr) (s : State W) :
  StdString.find (resolved_address_content (world s) componentAddr)
                 GITHUB_PREFIX = None ->
  DownloadComponent fuel componentAddr s
  = Done tt (emit_all (lookup_errors
                         (GetComponentAddress (world s) componentAddr)) s)
  /\ (forall addr,
        GetComponentAddress (world s) componentAddr = inr addr ->
        DownloadComponent fuel componentAddr s = Done tt s).
Proof.
  intros Hfind. rewrite DownloadComponent_run. simpl. rewrite Hfind.
  split; [reflexivity |].
  intros addr ->. simpl. by rewrite emit_all_nil.
Qed.

(** C8. For an address that contains the GitHub prefix and has a final
    path segment, the directory in which the component is cloned is the
    first of [root + segment], [root + segment + segment], ... that [stat]
    does not find: every earlier candidate exists and the chosen one does
    not.  The search ends as soon as one candidate is free: [k + 1] turns
    of the loop are enough when candidate [k] is free. *)
Theorem DownloadComponent_staging_directory
    (fuel : nat) (componentAddr : ScAddr) (s : State W)
    (position : nat) (segment : string) (k : nat) :
  let componentAddressContent :=
    resolved_address_content (world s) componentAddr in
  StdString.find componentAddressContent GITHUB_PREFIX = Some position ->
  StdString.substr componentAddressContent
    (StdString.rfind_char componentAddressContent "/") = Some segment ->
  stat_ok (world s) (staging_name m_specificationsPath segment k) = false ->
  k < fuel ->
  exists k0,
    k0 <= k
    /\ stat_ok (world s) (staging_name m_specificationsPath segment k0)
       = false
    /\ (forall i, i < k0 ->
          stat_ok (world s) (staging_name m_specificationsPath segment i)
          = true)
    /\ DownloadComponent fuel componentAddr s
       = clone_and_load componentAddressContent segment
           (staging_name m_specificationsPath segment k0)
           (emit_all (lookup_errors
                        (GetComponentAddress (world s) componentAddr)) s).
Proof.
  intros content Hfind Hsegment Hfree Hfuel.
  destruct (free_dir_name_first_free (world s) m_specificationsPath segment
              k 0 fuel Hfree Hfuel) as (k0 & Hle & Hrun & Hk0 & Hbelow).
  exists k0. split_and!; [exact Hle | exact Hk0 | exact Hbelow |].
  rewrite DownloadComponent_run. fold content. simpl.
  rewrite Hfind, Hsegment. unfold bind, choose_dir_name.
  rewrite world_emit_all. simpl in Hrun. by rewrite Hrun.
Qed.

(** *** Execute *)

Lemma Execute_S (fuel : nat) (commandParameters : CommandParameters)
    (s : State W) :
  Execute (S fuel) commandParameters s
  = match commandParameters !! PARAMETER_NAME with
    | None =>
        Done []
          (emit (Log INFO
                   "No identifier provided, installing all to install components")
                s)
    | Some componentsToInstall =>
        (install_components (Execute fuel) fuel componentsToInstall ;;
         ret []) s
    end.
Proof. simpl. by destruct (commandParameters !! PARAMETER_NAME). Qed.

(** One turn of the loop of [Execute], with the validation replaced by
    its verdict. *)
Lemma install_components_cons
    (exec : CommandParameters -> M W ExecutionResult) (fuel : nat)
    (identifier : string) (rest : list string) (s : State W) :
  install_components exec fuel (identifier :: rest) s
  = let componentAddr := HelperFindBySystemIdtf (world s) identifier in
    let validated :=
      emit_all (Log DEBUG ("Validating component " +:+ dquote +:+ identifier)
                  :: validation_log (world s) componentAddr) s in
    if validation_verdict (world s) componentAddr then
      (InstallDependencies_with exec componentAddr ;;
       DownloadComponent fuel componentAddr ;;
       install_components exec fuel rest)
        (emit (Log DEBUG ("Component " +:+ dquote +:+ identifier +:+ dquote
                          +:+ " is specified correctly")) validated)
    else
      install_components exec fuel rest
        (emit (Log WARNING ("Unable to install component " +:+ dquote
                            +:+ identifier)) validated).
Proof.
  simpl. unfold bind at 1, ask at 1. unfold bind at 1, SC_LOG at 1.
  unfold bind at 1. rewrite ValidateComponent_run.
  change (world (emit ?ev s)) with (world s).
  change (emit ?ev s) with (emit_all [ev] s). rewrite emit_all_app. simpl.
  by destruct (validation_verdict (world s) _).
Qed.

(** Whatever [Execute] returns, it returns the empty vector: [result] is
    declared on line 23 and never assigned. *)
Lemma Execute_returns_empty (fuel : nat) (commandParameters : CommandParameters)
    (s s' : State W) (plan : ExecutionResult) :
  Execute fuel commandParameters s = Done plan s' -> plan = [].
Proof.
  destruct fuel as [| fuel]; [discriminate |]. rewrite Execute_S.
  destruct (commandParameters !! PARAMETER_NAME) as [ids |].
  - unfold bind, ret. destruct (install_components _ _ _ _); congruence.
  - congruence.
Qed.

Lemma unresolved_is_rejected (w : W) (identifier : string) :
  IsValid (HelperFindBySystemIdtf w identifier) = false ->
  validation_verdict w (HelperFindBySystemIdtf w identifier) = false
  /\ validation_log w (HelperFindBySystemIdtf w identifier)
     = [Log WARNING "Component not found. Unable to install"].
Proof.
  intros Hv. unfold validation_verdict, validation_log. by rewrite Hv.
Qed.

Lemma install_components_unresolved
    (exec : CommandParameters -> M W ExecutionResult) (fuel : nat)
    (identifier : string) (rest : list string) (s : State W) :
  IsValid (HelperFindBySystemIdtf (world s) identifier) = false ->
  install_components exec fuel (identifier :: rest) s
  = install_components exec fuel rest (emit_all (rejection_log identifier) s).
Proof.
  intros Hv. rewrite install_components_cons. simpl.
  destruct (unresolved_is_rejected _ _ Hv) as [-> ->].
  by rewrite emit_emit_all.
Qed.

Lemma install_components_all_unresolved
    (exec : CommandParameters -> M W ExecutionResult) (fuel : nat)
    (identifiers : list string) :
  forall s : State W,
    Forall (fun identifier =>
              IsValid (HelperFindBySystemIdtf (world s) identifier) = false)
           identifiers ->
    install_components exec fuel identifiers s
    = Done tt (emit_all (concat (rejection_log <$> identifiers)) s).
Proof.
  induction identifiers as [| identifier rest IH]; intros s Hall.
  - simpl. unfold ret. by rewrite emit_all_nil.
  - apply Forall_cons in Hall as [Hv Hrest].
    rewrite install_components_unresolved by exact Hv.
    rewrite IH by exact Hrest. by rewrite emit_all_app.
Qed.

(** C9. A requested identifier that names no component of the store is
    rejected with warnings in the log and nothing else: the platform is
    left as it was and [Execute] goes on with the remaining identifiers.
    A request made of such identifiers only returns the empty plan, the
    platform untouched and the trace longer by their log lines. *)
Theorem Execute_unknown_identifier
    (fuel : nat) (commandParameters : CommandParameters) (s : State W) :
  (forall identifier rest,
     commandParameters !! PARAMETER_NAME = Some (identifier :: rest) ->
     IsValid (HelperFindBySystemIdtf (world s) identifier) = false ->
     Execute (S fuel) commandParameters s
     = Execute (S fuel) (<[PARAMETER_NAME := rest]> commandParameters)
         (emit_all (rejection_log identifier) s))
  /\ (forall identifiers,
        commandParameters !! PARAMETER_NAME = Some identifiers ->
        Forall (fun identifier =>
                  IsValid (HelperFindBySystemIdtf (world s) identifier)
                  = false) identifiers ->
        Execute (S fuel) commandParameters s
        = Done [] (emit_all (concat (rejection_log <$> identifiers)) s)).
Proof.
  split.
  - intros identifier rest Hids Hv. rewrite !Execute_S, Hids.
    rewrite lookup_insert_eq. unfold bind.
    by rewrite install_components_unresolved.
  - intros identifiers Hids Hall. rewrite Execute_S, Hids. unfold bind.
    by rewrite install_components_all_unresolved.
Qed.

(** C10. Once a requested component has passed validation, [Execute]
    calls [InstallDependencies] and throws its result away: whatever plan
    comes back, the empty one of a failed dependency included,
    [DownloadComponent] runs next on the same component, from the state
    the dependencies left, and the loop goes on. *)
Theorem Execute_downloads_after_any_dependency_result
    (fuel : nat) (commandParameters : CommandParameters)
    (identifier : string) (rest : list string)
    (s validated installed : State W) (plan : ExecutionResult) :
  let componentAddr := HelperFindBySystemIdtf (world s) identifier in
  commandParameters !! PARAMETER_NAME = Some (identifier :: rest) ->
  ValidateComponent componentAddr
    (emit (Log DEBUG ("Validating component " +:+ dquote +:+ identifier)) s)
  = Done true validated ->
  InstallDependencies fuel componentAddr
    (emit (Log DEBUG ("Component " +:+ dquote +:+ identifier +:+ dquote
                      +:+ " is specified correctly")) validated)
  = Done plan installed ->
  Execute (S fuel) commandParameters s
  = ((DownloadComponent fuel componentAddr ;;
      install_components (Execute fuel) fuel rest) ;;
     ret []) installed.
Proof.
  intros componentAddr Hids Hvalid Hdeps. rewrite Execute_S, Hids.
  unfold InstallDependencies in Hdeps.
  unfold bind at 1. simpl.
  unfold bind at 1, ask at 1. unfold bind at 1, SC_LOG at 1.
  unfold bind at 1. fold componentAddr. rewrite Hvalid. simpl.
  unfold bind at 1, SC_LOG at 1. unfold bind at 1. rewrite Hdeps.
  reflexivity.
Qed.

(** *** The trace only grows *)

Lemma grows_ret {A} (a : A) : grows (ret a).
Proof. intros s. simpl. reflexivity. Qed.

Lemma grows_throw {A} (e : StdException) : grows (@throw W A e).
Proof. intros s. simpl. reflexivity. Qed.

Lemma grows_out_of_fuel {A} : grows (@out_of_fuel W A).
Proof. intros s. exact I. Qed.

Lemma grows_ask {A} (q : W -> A) : grows (ask q).
Proof. intros s. simpl. reflexivity. Qed.

Lemma grows_SC_LOG (level : LogLevel) (message : string) :
  grows (SC_LOG level message).
Proof. intros s. by apply prefix_app_r. Qed.

Lemma grows_perform (f : W -> W) (ev : Event) : grows (perform f ev).
Proof. intros s. by apply prefix_app_r. Qed.

Lemma grows_bind {A B} (c : M W A) (k : A -> M W B) :
  grows c -> (forall a, grows (k a)) -> grows (bind c k).
Proof.
  intros Hc Hk s. unfold bind. specialize (Hc s).
  destruct (c s) as [a s1 | e s1 |]; [| done | done].
  specialize (Hk a s1). destruct (k a s1); [| | done]; by etrans.
Qed.

Create HintDb grows discriminated.
#[local] Hint Resolve grows_ret grows_throw grows_out_of_fuel grows_ask
  grows_SC_LOG grows_perform : grows.
#[local] Hint Extern 2 (grows (bind _ _)) =>
  apply grows_bind; [| intros ?] : grows.
#[local] Hint Extern 3 (grows (match ?x with _ => _ end)) =>
  destruct x : grows.

Lemma grows_try_lookup {A} (lookup : W -> ScException + A) (initial : A) :
  grows (try_lookup lookup initial).
Proof. unfold try_lookup. auto 10 with grows. Qed.

Lemma grows_GetLinkContent (addr : ScAddr) (content : string) :
  grows (GetLinkContent addr content).
Proof. apply grows_ask. Qed.

Lemma grows_ValidateComponent (componentAddr : ScAddr) :
  grows (ValidateComponent componentAddr).
Proof.
  intros s. rewrite ValidateComponent_run. by apply prefix_app_r.
Qed.

Lemma grows_choose_dir_name (fuel : nat) (segment name : string) :
  grows (choose_dir_name fuel segment name).
Proof.
  intros s. unfold choose_dir_name.
  destruct (free_dir_name _ _ _ _); [reflexivity | exact I].
Qed.

Lemma grows_load_entries (componentDirName : string) (entries : list string) :
  grows (load_entries componentDirName entries).
Proof.
  induction entries as [| filename rest IH]; simpl; auto 10 with grows.
Qed.

#[local] Hint Resolve grows_try_lookup grows_GetLinkContent
  grows_ValidateComponent grows_choose_dir_name grows_load_entries : grows.

Lemma grows_clone_and_load (content segment name : string) :
  grows (clone_and_load content segment name).
Proof. unfold clone_and_load. auto 10 with grows. Qed.

#[local] Hint Resolve grows_clone_and_load : grows.

Lemma grows_DownloadComponent (fuel : nat) (componentAddr : ScAddr) :
  grows (DownloadComponent fuel componentAddr).
Proof. unfold DownloadComponent. auto 12 with grows. Qed.

#[local] Hint Resolve grows_DownloadComponent : grows.

Section GrowsDependencies.

Variable exec : CommandParameters -> M W ExecutionResult.
Hypothesis grows_exec : forall parameters, grows (exec parameters).

Lemma grows_dependencies_loop (deps : ScAddrVector) :
  forall result, grows (dependencies_loop exec deps result).
Proof using grows_exec.
  induction deps as [| d rest IH]; intros result; simpl;
    auto 12 with grows.
Qed.

Lemma grows_InstallDependencies_with (componentAddr : ScAddr) :
  grows (InstallDependencies_with exec componentAddr).
Proof using grows_exec.
  unfold InstallDependencies_with.
  pose proof grows_dependencies_loop. auto 10 with grows.
Qed.

Lemma grows_install_components (fuel : nat) (identifiers : list string) :
  grows (install_components exec fuel identifiers).
Proof using grows_exec.
  pose proof grows_InstallDependencies_with.
  induction identifiers as [| identifier rest IH]; simpl;
    auto 14 with grows.
Qed.

End GrowsDependencies.

Lemma grows_Execute (fuel : nat) :
  forall commandParameters, grows (Execute fuel commandParameters).
Proof.
  induction fuel as [| fuel IH]; intros commandParameters; simpl.
  - apply grows_out_of_fuel.
  - pose proof (grows_install_components (Execute fuel) IH fuel).
    destruct (commandParameters !! PARAMETER_NAME); auto 10 with grows.
Qed.

(** *** InstallDependencies *)

Lemma InstallDependencies_with_run
    (exec : CommandParameters -> M W ExecutionResult)
    (componentAddr : ScAddr) (deps : ScAddrVector) (s : State W) :
  GetComponentDependencies (world s) componentAddr = inr deps ->
  InstallDependencies_with exec componentAddr s
  = (e <- dependencies_loop exec deps [] ;; ret (exit_value e)) s.
Proof.
  intros Hdeps. unfold InstallDependencies_with. unfold bind at 1.
  rewrite try_lookup_run, Hdeps. simpl. by rewrite emit_all_nil.
Qed.

(** Dependencies that the loop has run through leave it where a loop over
    the remaining ones would start. *)
Lemma dependencies_loop_app
    (exec : CommandParameters -> M W ExecutionResult)
    (pre rest : ScAddrVector) :
  forall (result result' : ExecutionResult) (s s' : State W),
    dependencies_loop exec pre result s = Done (Completed result') s' ->
    dependencies_loop exec (pre ++ rest) result s
    = dependencies_loop exec rest result' s'.
Proof.
  induction pre as [| d pre IH]; intros result result' s s' Hpre.
  - simpl in Hpre. unfold ret in Hpre. by simplify_eq.
  - simpl in Hpre |- *. unfold bind at 1 in Hpre. unfold bind at 1.
    unfold ask at 1 in Hpre. unfold ask at 1.
    unfold bind at 1 in Hpre. unfold bind at 1.
    unfold SC_LOG at 1 in Hpre. unfold SC_LOG at 1.
    unfold bind at 1 in Hpre. unfold bind at 1.
    destruct (exec _ _) as [[| idtf plan] s1 | |]; try discriminate.
    by apply IH.
Qed.

(** The [return] of line 166. *)
Lemma dependencies_loop_returns
    (exec : CommandParameters -> M W ExecutionResult)
    (d : ScAddr) (rest : ScAddrVector) (result : ExecutionResult)
    (s failed : State W) :
  let dependencyIdtf := HelperGetSystemIdtf (world s) d in
  exec {[ PARAMETER_NAME := [dependencyIdtf] ]}
    (emit (Log INFO ("ScComponentManager: Install dependency " +:+ dquote
                     +:+ dependencyIdtf +:+ dquote)) s)
  = Done [] failed ->
  dependencies_loop exec (d :: rest) result s
  = Done (Returned [])
      (emit (Log ERROR ("Dependency " +:+ dquote +:+ dependencyIdtf
                        +:+ dquote +:+ " is not installed")) failed).
Proof.
  intros dependencyIdtf Hexec. simpl. unfold bind at 1, ask at 1.
  unfold bind at 1, SC_LOG at 1. unfold bind at 1.
  fold dependencyIdtf. by rewrite Hexec.
Qed.

(** C3. When the recursive [Execute] of a dependency returns the empty
    plan, [InstallDependencies] returns the empty plan at once: the
    dependencies after it in the list play no part in the result or in the
    final state, which is the state that failed install left plus one
    error line.  Nothing is undone: what the dependencies before it
    recorded in the trace is still there. *)
Theorem InstallDependencies_stops_at_empty_plan
    (fuel : nat) (componentAddr : ScAddr)
    (pre : ScAddrVector) (d : ScAddr) (post : ScAddrVector)
    (accumulated : ExecutionResult) (s completed failed : State W) :
  let dependencyIdtf := HelperGetSystemIdtf (world completed) d in
  GetComponentDependencies (world s) componentAddr
  = inr (pre ++ d :: post) ->
  dependencies_loop (Execute fuel) pre [] s
  = Done (Completed accumulated) completed ->
  Execute fuel {[ PARAMETER_NAME := [dependencyIdtf] ]}
    (emit (Log INFO ("ScComponentManager: Install dependency " +:+ dquote
                     +:+ dependencyIdtf +:+ dquote)) completed)
  = Done [] failed ->
  InstallDependencies fuel componentAddr s
  = Done []
      (emit (Log ERROR ("Dependency " +:+ dquote +:+ dependencyIdtf
                        +:+ dquote +:+ " is not installed")) failed)
  /\ trace completed `prefix_of` trace failed.
Proof.
  intros dependencyIdtf Hdeps Hpre Hfail. split.
  - unfold InstallDependencies.
    rewrite (InstallDependencies_with_run _ _ _ _ Hdeps). unfold bind.
    rewrite (dependencies_loop_app _ _ _ _ _ _ _ Hpre).
    by rewrite (dependencies_loop_returns _ _ _ _ _ _ Hfail).
  - pose proof (grows_Execute fuel {[ PARAMETER_NAME := [dependencyIdtf] ]}
                  (emit (Log INFO
                           ("ScComponentManager: Install dependency "
                            +:+ dquote +:+ dependencyIdtf +:+ dquote))
                        completed)) as Hgrows.
    rewrite Hfail in Hgrows. etrans; [| exact Hgrows].
    by apply prefix_app_r.
Qed.

(** The [readdir] loop hands to the loader the entries whose name
    contains [.scs], in the order of the directory. *)
Lemma load_entries_trace (componentDirName : string) (entries : list string) :
  forall s : State W,
    exists s',
      load_entries componentDirName entries s = Done tt s'
      /\ trace s'
         = trace s
           ++ ((fun filename =>
                  LoadScs (componentDirName +:+ "/" +:+ filename))
                 <$> filter (fun filename =>
                               is_Some (StdString.rfind filename ".scs"))
                            entries).
Proof.
  induction entries as [| filename rest IH]; intros s.
  - exists s. simpl. by rewrite app_nil_r.
  - simpl. unfold bind at 1.
    destruct (StdString.rfind filename ".scs") as [i |] eqn:Hscs.
    + rewrite filter_cons_True by (by rewrite Hscs).
      destruct (IH (emit (LoadScs (componentDirName +:+ "/" +:+ filename))
                     (mkState (loadScsFile
                                 (componentDirName +:+ "/" +:+ filename)
                                 (world s)) (trace s))))
        as (s' & Hrun & Htrace).
      exists s'. split; [exact Hrun |].
      rewrite Htrace. simpl. by rewrite <- app_assoc.
    + rewrite filter_cons_False by (rewrite Hscs; by intros [? ?]).
      destruct (IH s) as (s' & Hrun & Htrace). by exists s'.
Qed.

(** *** Running out of fuel *)

Lemma dependencies_loop_out_of_fuel
    (exec : CommandParameters -> M W ExecutionResult)
    (d : ScAddr) (rest : ScAddrVector) (result : ExecutionResult)
    (s : State W) :
  let dependencyIdtf := HelperGetSystemIdtf (world s) d in
  exec {[ PARAMETER_NAME := [dependencyIdtf] ]}
    (emit (Log INFO ("ScComponentManager: Install dependency " +:+ dquote
                     +:+ dependencyIdtf +:+ dquote)) s)
  = OutOfFuel ->
  dependencies_loop exec (d :: rest) result s = OutOfFuel.
Proof.
  intros dependencyIdtf Hexec. simpl. unfold bind at 1, ask at 1.
  unfold bind at 1, SC_LOG at 1. unfold bind at 1.
  fold dependencyIdtf. by rewrite Hexec.
Qed.

(** A validated component whose first dependency cannot be installed
    within [fuel] nested calls cannot be installed within [fuel + 1]. *)
Lemma Execute_out_of_fuel_in_first_dependency
    (fuel : nat) (identifier : string) (d : ScAddr) (rest : ScAddrVector)
    (s : State W) :
  let componentAddr := HelperFindBySystemIdtf (world s) identifier in
  validation_verdict (world s) componentAddr = true ->
  GetComponentDependencies (world s) componentAddr = inr (d :: rest) ->
  (forall tr,
     Execute fuel {[ PARAMETER_NAME := [HelperGetSystemIdtf (world s) d] ]}
       (mkState (world s) tr) = OutOfFuel) ->
  Execute (S fuel) {[ PARAMETER_NAME := [identifier] ]} s = OutOfFuel.
Proof.
  intros componentAddr Hvalid Hdeps Hrec. subst componentAddr.
  rewrite Execute_S, lookup_singleton_eq. unfold bind at 1.
  rewrite install_components_cons. cbv zeta. rewrite Hvalid.
  unfold bind at 1.
  rewrite (InstallDependencies_with_run _ _ (d :: rest)) by exact Hdeps.
  unfold bind at 1.
  rewrite dependencies_loop_out_of_fuel; [reflexivity |]. apply Hrec.
Qed.

(** On a chain that cycles there is always a next step, and it stays on
    the chain. *)
Lemma install_chain_cycles_step (w : W) (identifier : string) :
  install_chain_cycles w identifier ->
  exists identifier',
    next_install w identifier identifier'
    /\ install_chain_cycles w identifier'.
Proof.
  intros (y & Hreach & Hcycle). destruct Hreach as [x | x x' y Hstep Hreach].
  - inversion Hcycle as [? ? Hstep | ? z ? Hstep Hback]; subst.
    + exists x. split; [exact Hstep |]. by exists x.
    + exists z. split; [exact Hstep |]. exists x.
      split; [by apply tc_rtc | exact Hcycle].
  - exists x'. split; [exact Hstep |]. by exists y.
Qed.

(** No depth of recursion is enough for a request whose chain cycles: the
    whole descent takes place before anything is downloaded, in the store
    as the request found it. *)
Lemma Execute_out_of_fuel_on_cycle (w : W) (fuel : nat) :
  forall identifier tr,
    install_chain_cycles w identifier ->
    Execute fuel {[ PARAMETER_NAME := [identifier] ]} (mkState w tr)
    = OutOfFuel.
Proof.
  induction fuel as [| fuel IH]; intros identifier tr Hcycle; [reflexivity |].
  destruct (install_chain_cycles_step _ _ Hcycle)
    as (identifier' & (Hvalid & d & rest & Hdeps & ->) & Hcycle').
  apply (Execute_out_of_fuel_in_first_dependency fuel identifier d rest
           (mkState w tr)); [exact Hvalid | exact Hdeps |].
  intros tr'. by apply IH.
Qed.

(** A request for a single component that fails validation returns at
    once, its dependencies never looked at. *)
Lemma Execute_rejected (fuel : nat) (identifier : string) (s : State W) :
  let componentAddr := HelperFindBySystemIdtf (world s) identifier in
  validation_verdict (world s) componentAddr = false ->
  Execute (S fuel) {[ PARAMETER_NAME := [identifier] ]} s
  = Done []
      (emit_all
         (Log DEBUG ("Validating component " +:+ dquote +:+ identifier)
            :: validation_log (world s) componentAddr
            ++ [Log WARNING ("Unable to install component " +:+ dquote
                             +:+ identifier)]) s).
Proof.
  intros componentAddr Hvalid. subst componentAddr.
  rewrite Execute_S, lookup_singleton_eq. unfold bind at 1.
  rewrite install_components_cons. cbv zeta. rewrite Hvalid.
  simpl. unfold ret. f_equal.
  by rewrite (emit_emit_all _ (_ :: _)).
Qed.

(** *** Strings *)

Lemma string_app_nil (b : string) : EmptyString +:+ b = b.
Proof. reflexivity. Qed.

Lemma string_app_cons (x : ascii) (a b : string) :
  String x a +:+ b = String x (a +:+ b).
Proof. reflexivity. Qed.

Lemma string_app_nil_r (a : string) : a +:+ EmptyString = a.
Proof.
  induction a as [| x a IH]; [reflexivity |].
  by rewrite string_app_cons, IH.
Qed.

Lemma string_length_append (a b : string) :
  String.length (a +:+ b) = String.length a + String.length b.
Proof. induction a as [| c a IH]; simpl; [reflexivity | by rewrite IH]. Qed.

Lemma string_append_assoc (a b c : string) :
  (a +:+ b) +:+ c = a +:+ (b +:+ c).
Proof.
  induction a as [| x a IH]; [reflexivity |].
  by rewrite !string_app_cons, IH.
Qed.

Lemma string_prefix_append (a b : string) : String.prefix a (a +:+ b) = true.
Proof.
  induction a as [| c a IH]; [by destruct b |].
  rewrite string_app_cons. simpl. by destruct (ascii_dec c c).
Qed.

Lemma string_prefix_inv (p s : string) :
  String.prefix p s = true -> exists b, s = p +:+ b.
Proof.
  revert s. induction p as [| c p IH]; intros s Hp; [by exists s |].
  destruct s as [| c' s]; simpl in Hp; [discriminate |].
  destruct (ascii_dec c c') as [<- |]; [| discriminate].
  destruct (IH s Hp) as [b ->]. by exists b.
Qed.

Lemma find_unfold (s pat : string) :
  StdString.find s pat
  = if String.prefix pat s then Some 0
    else match s with
         | EmptyString => None
         | String _ s' => S <$> StdString.find s' pat
         end.
Proof. by destruct s. Qed.

(** Where [find] succeeds, the pattern is in the string. *)
Lemma find_Some_split (s pat : string) :
  forall i, StdString.find s pat = Some i ->
            exists a b, s = a +:+ pat +:+ b.
Proof.
  induction s as [| c s IH]; intros i Hfind; rewrite find_unfold in Hfind.
  - destruct (String.prefix pat EmptyString) eqn:Hp; [| discriminate].
    destruct (string_prefix_inv _ _ Hp) as [b Hb]. by exists EmptyString, b.
  - destruct (String.prefix pat (String c s)) eqn:Hp.
    + destruct (string_prefix_inv _ _ Hp) as [b Hb]. by exists EmptyString, b.
    + destruct (StdString.find s pat) as [j |] eqn:Hj; [| discriminate].
      destruct (IH j eq_refl) as (a & b & ->). by exists (String c a), b.
Qed.

Lemma rfind_char_cons (a c : ascii) (s : string) :
  is_Some (StdString.rfind_char (String a s) c)
  <-> a = c \/ is_Some (StdString.rfind_char s c).
Proof.
  unfold StdString.rfind_char. simpl.
  destruct (StdString.rfind s (String c EmptyString)) as [i |].
  - split; [right | ]; by eexists.
  - destruct (ascii_dec c a) as [<- | Hne].
    + destruct s; split; try (by left); by eexists.
    + split; [by intros [? ?] |].
      intros [-> | [? ?]]; [by destruct Hne | discriminate].
Qed.

Lemma rfind_char_append (a b : string) (c : ascii) :
  is_Some (StdString.rfind_char a c) \/ is_Some (StdString.rfind_char b c) ->
  is_Some (StdString.rfind_char (a +:+ b) c).
Proof.
  induction a as [| x a IH].
  - intros [[i Hi] | Hb]; [discriminate | exact Hb].
  - rewrite string_app_cons, !rfind_char_cons. intros [[-> | Ha] | Hb];
      [by left | right; apply IH; by left | right; apply IH; by right].
Qed.

Lemma rfind_nil (pat : string) :
  StdString.rfind EmptyString pat
  = if String.prefix pat EmptyString then Some 0 else None.
Proof. reflexivity. Qed.

Lemma rfind_cons (c : ascii) (s pat : string) :
  StdString.rfind (String c s) pat
  = match StdString.rfind s pat with
    | Some i => Some (S i)
    | None => if String.prefix pat (String c s) then Some 0 else None
    end.
Proof. reflexivity. Qed.

Lemma rfind_le (s pat : string) :
  forall i, StdString.rfind s pat = Some i -> i <= String.length s.
Proof.
  induction s as [| c s IH]; intros i Hi.
  - rewrite rfind_nil in Hi.
    destruct (String.prefix pat EmptyString); simplify_eq. simpl. lia.
  - rewrite rfind_cons in Hi. destruct (StdString.rfind s pat) as [j |].
    + simplify_eq. specialize (IH j eq_refl). simpl. lia.
    + destruct (String.prefix pat (String c s)); simplify_eq. simpl. lia.
Qed.

(** What follows the last [c] of a string starts with that [c]. *)
Lemma rfind_char_segment (s : string) (c : ascii) :
  forall i, StdString.rfind_char s c = Some i ->
            exists rest, StdString.drop_chars i s = String c rest.
Proof.
  unfold StdString.rfind_char.
  induction s as [| a s IH]; intros i Hi; simpl in Hi; [discriminate |].
  destruct (StdString.rfind s (String c EmptyString)) as [j |].
  - simplify_eq. simpl. by apply IH.
  - destruct (ascii_dec c a) as [<- |]; [| discriminate].
    destruct s; simpl in Hi; simplify_eq; by eexists.
Qed.

(** On an address that holds a pattern with a slash in it, the [substr]
    of line 198 has a position to start from. *)
Lemma segment_of_recognized_address (content pat : string) (position : nat) :
  StdString.find content pat = Some position ->
  is_Some (StdString.rfind_char pat "/") ->
  exists segment rest,
    StdString.substr content (StdString.rfind_char content "/") = Some segment
    /\ segment = String "/" rest.
Proof.
  intros Hfind Hslash.
  destruct (find_Some_split _ _ _ Hfind) as (a & b & ->).
  assert (is_Some (StdString.rfind_char (a +:+ pat +:+ b) "/")) as [i Hi].
  { apply rfind_char_append. right. apply rfind_char_append. by left. }
  destruct (rfind_char_segment _ _ _ Hi) as [rest Hrest].
  exists (String "/" rest), rest. split; [| reflexivity].
  rewrite Hi. unfold StdString.substr.
  apply rfind_le in Hi. apply Nat.leb_le in Hi. by rewrite Hi, Hrest.
Qed.

Lemma ends_with_unfold (s suffix : string) :
  StdString.ends_with s suffix
  = (String.eqb s suffix
     || match s with
        | EmptyString => false
        | String _ s' => StdString.ends_with s' suffix
        end).
Proof. by destruct s. Qed.

Lemma ends_with_rfind (s suffix : string) :
  StdString.ends_with s suffix = true ->
  is_Some (StdString.rfind s suffix).
Proof.
  induction s as [| c s IH]; rewrite ends_with_unfold.
  - rewrite orb_false_r. intros Heq. apply String.eqb_eq in Heq as <-.
    by eexists.
  - intros [Heq | Htail]%orb_true_iff; rewrite rfind_cons.
    + apply String.eqb_eq in Heq as <-.
      destruct (StdString.rfind s (String c s)); [by eexists |].
      pose proof (string_prefix_append (String c s) EmptyString) as Hp.
      rewrite string_app_nil_r in Hp. rewrite Hp. by eexists.
    + destruct (IH Htail) as [i ->]. by eexists.
Qed.

(** *** Requests and their parts *)

Lemma bind_assoc {A B C} (c : M W A) (f : A -> M W B) (g : B -> M W C)
    (s : State W) :
  bind (bind c f) g s = bind c (fun a => bind (f a) g) s.
Proof. unfold bind. by destruct (c s). Qed.

Lemma bind_ret_unit (c : M W unit) (s : State W) :
  bind c (fun _ => ret tt) s = c s.
Proof. unfold bind, ret. by destruct (c s) as [[] s' | |]. Qed.

(** X1. A request without the parameter of the identifiers is answered by
    one log line and the empty plan; a request with an empty list of
    identifiers by the empty plan and nothing else.  No other entry of the
    parameters has any bearing on the run. *)
Theorem Execute_without_identifiers
    (fuel : nat) (commandParameters : CommandParameters) (s : State W) :
  (commandParameters !! PARAMETER_NAME = None ->
   Execute (S fuel) commandParameters s
   = Done []
       (emit (Log INFO
                "No identifier provided, installing all to install components")
             s))
  /\ (commandParameters !! PARAMETER_NAME = Some [] ->
      Execute (S fuel) commandParameters s = Done [] s)
  /\ (forall commandParameters' : CommandParameters,
        commandParameters' !! PARAMETER_NAME
        = commandParameters !! PARAMETER_NAME ->
        Execute (S fuel) commandParameters' s
        = Execute (S fuel) commandParameters s).
Proof.
  split_and!.
  - intros Hnone. by rewrite Execute_S, Hnone.
  - intros Hnil. by rewrite Execute_S, Hnil.
  - intros commandParameters' Hsame. by rewrite !Execute_S, Hsame.
Qed.

(** A successful validation has logged nothing. *)
Lemma validation_log_of_valid (w : W) (componentAddr : ScAddr) :
  validation_verdict w componentAddr = true ->
  validation_log w componentAddr = [].
Proof.
  unfold validation_verdict, validation_log, has_installation_method,
    resolved_address_content.
  intros [[[-> ->]%andb_true_iff Hcontent%negb_true_iff]%andb_true_iff
            Hmethod]%andb_true_iff.
  simpl. destruct (GetComponentAddress w componentAddr) as [ex | addr];
    [discriminate |].
  rewrite Hcontent. simpl.
  destruct (GetComponentInstallationMethod w componentAddr) as [ex | method];
    [discriminate |].
  by rewrite Hmethod.
Qed.

(** A failed validation has logged the errors of at most one caught
    exception and then one warning. *)
Lemma validation_log_of_invalid (w : W) (componentAddr : ScAddr) :
  validation_verdict w componentAddr = false ->
  exists errors message,
    validation_log w componentAddr = errors ++ [Log WARNING message]
    /\ Forall (fun ev => exists text, ev = Log ERROR text) errors.
Proof.
  unfold validation_verdict, validation_log, has_installation_method,
    resolved_address_content.
  assert (forall A (r : ScException + A),
            Forall (fun ev => exists text, ev = Log ERROR text)
                   (lookup_errors r)) as Herrors.
  { intros A [ex | a]; simpl; repeat constructor; by eexists. }
  destruct (IsValid componentAddr); simpl;
    [| intros _; by exists [], "Component not found. Unable to install"].
  destruct (is_reusable_component w componentAddr); simpl;
    [| intros _; by exists [], "Component is not a reusable component."].
  destruct (GetComponentAddress w componentAddr) as [ex | addr] eqn:Haddr.
  { intros _. eexists _, _. split; [reflexivity |]. apply (Herrors _ (inl ex)). }
  simpl. destruct (StdString.empty _); simpl.
  { intros _. by exists [], "Component address not found.". }
  destruct (GetComponentInstallationMethod w componentAddr) as [ex | method].
  { intros _. eexists _, _. split; [reflexivity |]. apply (Herrors _ (inl ex)). }
  simpl. destruct (IsValid method); [discriminate |].
  intros _. by exists [], "Component installation method not found.".
Qed.

(** X2. Validation reads the store and writes only to the log.  Run again
    on the state it left, it gives the same verdict.  Acceptance is
    silent; a rejection logs one warning, after the two error lines of a
    caught exception if there was one. *)
Theorem ValidateComponent_is_repeatable (componentAddr : ScAddr)
    (s : State W) :
  exists verdict s1 s2,
    ValidateComponent componentAddr s = Done verdict s1
    /\ world s1 = world s
    /\ ValidateComponent componentAddr s1 = Done verdict s2
    /\ (verdict = true -> s1 = s)
    /\ (verdict = false ->
        exists errors message,
          trace s1 = trace s ++ errors ++ [Log WARNING message]
          /\ Forall (fun ev => exists text, ev = Log ERROR text) errors).
Proof.
  eexists _, _, _. split; [apply ValidateComponent_run |].
  split; [reflexivity |].
  split; [rewrite ValidateComponent_run; reflexivity |].
  split.
  - intros Hvalid. rewrite (validation_log_of_valid _ _ Hvalid).
    apply emit_all_nil.
  - intros Hinvalid.
    destruct (validation_log_of_invalid _ _ Hinvalid)
      as (errors & message & Hlog & Herrors).
    exists errors, message. split; [| exact Herrors]. simpl. by rewrite Hlog.
Qed.

(** A component that fails validation is passed over. *)
Lemma install_components_rejected
    (exec : CommandParameters -> M W ExecutionResult) (fuel : nat)
    (identifier : string) (rest : list string) (s : State W) :
  let componentAddr := HelperFindBySystemIdtf (world s) identifier in
  validation_verdict (world s) componentAddr = false ->
  install_components exec fuel (identifier :: rest) s
  = install_components exec fuel rest
      (emit_all
         (Log DEBUG ("Validating component " +:+ dquote +:+ identifier)
            :: validation_log (world s) componentAddr
            ++ [Log WARNING ("Unable to install component " +:+ dquote
                             +:+ identifier)]) s).
Proof.
  intros componentAddr Hinvalid. subst componentAddr.
  rewrite install_components_cons. cbv zeta. rewrite Hinvalid.
  by rewrite (emit_emit_all _ (_ :: _)).
Qed.

(** X3. A requested component that fails validation, for whatever reason,
    costs log lines only: the platform is left as it was, nothing is looked
    up about its dependencies, and [Execute] goes on with the identifiers
    that follow. *)
Theorem Execute_skips_rejected_component
    (fuel : nat) (commandParameters : CommandParameters)
    (identifier : string) (rest : list string) (s : State W) :
  let componentAddr := HelperFindBySystemIdtf (world s) identifier in
  commandParameters !! PARAMETER_NAME = Some (identifier :: rest) ->
  validation_verdict (world s) componentAddr = false ->
  Execute (S fuel) commandParameters s
  = Execute (S fuel) (<[PARAMETER_NAME := rest]> commandParameters)
      (emit_all
         (Log DEBUG ("Validating component " +:+ dquote +:+ identifier)
            :: validation_log (world s) componentAddr
            ++ [Log WARNING ("Unable to install component " +:+ dquote
                             +:+ identifier)]) s).
Proof.
  intros componentAddr Hids Hinvalid.
  rewrite !Execute_S, Hids, lookup_insert_eq. unfold bind.
  by rewrite install_components_rejected.
Qed.

Lemma install_components_app
    (exec : CommandParameters -> M W ExecutionResult) (fuel : nat)
    (first second : list string) :
  forall s : State W,
    install_components exec fuel (first ++ second) s
    = (install_components exec fuel first ;;
       install_components exec fuel second) s.
Proof.
  induction first as [| identifier first IH]; intros s; [reflexivity |].
  unfold bind at 1. rewrite <- app_comm_cons, !install_components_cons.
  cbv zeta. destruct (validation_verdict _ _).
  - unfold bind at 1 3.
    destruct (InstallDependencies_with _ _ _) as [plan s1 | |]; try reflexivity.
    unfold bind.
    destruct (DownloadComponent _ _ _) as [[] s2 | |]; try reflexivity.
    apply IH.
  - apply IH.
Qed.

(** X4. A request for several identifiers is served as the requests for
    its parts, one after the other on the state the one before left; an
    exception or a recursion that does not end in the first part ends the
    whole. *)
Theorem Execute_concatenated_requests
    (fuel : nat) (commandParameters : CommandParameters)
    (first second : list string) (s : State W) :
  commandParameters !! PARAMETER_NAME = Some (first ++ second) ->
  Execute (S fuel) commandParameters s
  = (Execute (S fuel) {[ PARAMETER_NAME := first ]} ;;
     Execute (S fuel) {[ PARAMETER_NAME := second ]}) s.
Proof.
  intros Hids. unfold bind at 1.
  rewrite !Execute_S, Hids, lookup_singleton_eq.
  unfold bind at 1. rewrite install_components_app. unfold bind.
  destruct (install_components _ _ first s) as [[] s1 | |]; try reflexivity.
  unfold ret at 2. rewrite Execute_S, lookup_singleton_eq. reflexivity.
Qed.

(** *** What becomes of the dependencies *)

Lemma InstallDependencies_with_lookup
    (exec : CommandParameters -> M W ExecutionResult)
    (componentAddr : ScAddr) (s : State W) :
  InstallDependencies_with exec componentAddr s
  = (e <- dependencies_loop exec
            (match GetComponentDependencies (world s) componentAddr with
             | inr deps => deps
             | inl _ => []
             end) [] ;;
     ret (exit_value e))
      (emit_all (lookup_errors
                   (GetComponentDependencies (world s) componentAddr)) s).
Proof.
  unfold InstallDependencies_with. unfold bind at 1.
  by rewrite try_lookup_run.
Qed.

(** The loop over the dependencies, with [Execute] as the recursive call,
    is over after its first turn. *)
Lemma dependencies_loop_first
    (fuel : nat) (d : ScAddr) (rest : ScAddrVector)
    (result : ExecutionResult) (s : State W) :
  let dependencyIdtf := HelperGetSystemIdtf (world s) d in
  dependencies_loop (Execute fuel) (d :: rest) result s
  = (Execute fuel {[ PARAMETER_NAME := [dependencyIdtf] ]} ;;
     SC_LOG ERROR ("Dependency " +:+ dquote +:+ dependencyIdtf +:+ dquote
                   +:+ " is not installed") ;;
     ret (Returned []))
      (emit (Log INFO ("ScComponentManager: Install dependency " +:+ dquote
                       +:+ dependencyIdtf +:+ dquote)) s).
Proof.
  intros dependencyIdtf. simpl. unfold bind at 1, ask at 1.
  unfold bind at 1, SC_LOG at 1. fold dependencyIdtf. unfold bind at 1 3.
  destruct (Execute fuel _ _) as [plan s1 | |] eqn:Hexec; try reflexivity.
  by rewrite (Execute_returns_empty _ _ _ _ _ Hexec).
Qed.

(** X5. [Execute] never returns anything but the empty plan, and so does
    [InstallDependencies]: no identifier is ever put in a plan. *)
Theorem plans_are_always_empty
    (fuel : nat) (s s' : State W) (plan : ExecutionResult) :
  (forall commandParameters,
     Execute fuel commandParameters s = Done plan s' -> plan = [])
  /\ (forall componentAddr,
        InstallDependencies fuel componentAddr s = Done plan s' -> plan = []).
Proof.
  split; [intros commandParameters; apply Execute_returns_empty |].
  intros componentAddr. unfold InstallDependencies.
  rewrite InstallDependencies_with_lookup. unfold bind at 1.
  destruct (GetComponentDependencies (world s) componentAddr)
    as [ex | [| d rest]]; try (unfold ret; simpl; congruence).
  rewrite dependencies_loop_first. unfold bind, SC_LOG, ret.
  destruct (Execute fuel _ _); simpl; congruence.
Qed.

(** X6. Of a list of dependencies only the first is ever installed, and
    it is always reported as not installed: [InstallDependencies] calls
    [Execute] on the first dependency, logs the error line and returns the
    empty plan, whatever the list holds after it. *)
Theorem InstallDependencies_installs_first_dependency_only
    (fuel : nat) (componentAddr d : ScAddr) (rest : ScAddrVector)
    (s : State W) :
  let dependencyIdtf := HelperGetSystemIdtf (world s) d in
  GetComponentDependencies (world s) componentAddr = inr (d :: rest) ->
  InstallDependencies fuel componentAddr s
  = (Execute fuel {[ PARAMETER_NAME := [dependencyIdtf] ]} ;;
     SC_LOG ERROR ("Dependency " +:+ dquote +:+ dependencyIdtf +:+ dquote
                   +:+ " is not installed") ;;
     ret [])
      (emit (Log INFO ("ScComponentManager: Install dependency " +:+ dquote
                       +:+ dependencyIdtf +:+ dquote)) s).
Proof.
  intros dependencyIdtf Hdeps. unfold InstallDependencies.
  rewrite (InstallDependencies_with_run _ _ _ _ Hdeps). unfold bind at 1.
  rewrite dependencies_loop_first. fold dependencyIdtf. unfold bind.
  by destruct (Execute fuel _ _).
Qed.

Lemma InstallDependencies_with_none
    (exec : CommandParameters -> M W ExecutionResult)
    (componentAddr : ScAddr) (s : State W) :
  match GetComponentDependencies (world s) componentAddr with
  | inr deps => deps = []
  | inl _ => True
  end ->
  InstallDependencies_with exec componentAddr s
  = Done []
      (emit_all (lookup_errors
                   (GetComponentDependencies (world s) componentAddr)) s).
Proof.
  intros Hnone. rewrite InstallDependencies_with_lookup.
  by destruct (GetComponentDependencies (world s) componentAddr)
    as [ex | deps]; simplify_eq.
Qed.

(** X7. A component without dependencies, or whose dependencies the store
    fails to give, has none installed: [InstallDependencies] returns the
    empty plan without a call to [Execute] (no fuel is needed), the
    platform untouched, and logs nothing in the first case and the two
    error lines of the exception in the second. *)
Theorem InstallDependencies_without_dependencies
    (fuel : nat) (componentAddr : ScAddr) (s : State W) :
  (GetComponentDependencies (world s) componentAddr = inr [] ->
   InstallDependencies fuel componentAddr s = Done [] s)
  /\ (forall exception,
        GetComponentDependencies (world s) componentAddr = inl exception ->
        InstallDependencies fuel componentAddr s
        = Done []
            (emit_all [ Log ERROR (Message exception);
                        Log ERROR (Description exception) ] s)).
Proof.
  unfold InstallDependencies. split.
  - intros Hdeps. rewrite InstallDependencies_with_none by by rewrite Hdeps.
    rewrite Hdeps. apply f_equal, emit_all_nil.
  - intros ex Hdeps. rewrite InstallDependencies_with_none by by rewrite Hdeps.
    by rewrite Hdeps.
Qed.

(** A requested component that passes validation: the turn of the loop
    with the validation out of the way. *)
Lemma install_components_valid
    (exec : CommandParameters -> M W ExecutionResult) (fuel : nat)
    (identifier : string) (rest : list string) (s : State W) :
  let componentAddr := HelperFindBySystemIdtf (world s) identifier in
  validation_verdict (world s) componentAddr = true ->
  install_components exec fuel (identifier :: rest) s
  = (InstallDependencies_with exec componentAddr ;;
     DownloadComponent fuel componentAddr ;;
     install_components exec fuel rest)
      (emit_all
         [ Log DEBUG ("Validating component " +:+ dquote +:+ identifier);
           Log DEBUG ("Component " +:+ dquote +:+ identifier +:+ dquote
                      +:+ " is specified correctly") ] s).
Proof.
  intros componentAddr Hvalid. subst componentAddr.
  rewrite install_components_cons. cbv zeta.
  rewrite Hvalid, (validation_log_of_valid _ _ Hvalid).
  by rewrite (emit_emit_all _ [_]).
Qed.

(** X8. The request for one component that passes validation and has no
    dependencies comes down to its download: two debug lines, then
    [DownloadComponent], then the empty plan.  [Execute] is not called
    again. *)
Theorem Execute_component_without_dependencies
    (fuel : nat) (identifier : string) (s : State W) :
  let componentAddr := HelperFindBySystemIdtf (world s) identifier in
  validation_verdict (world s) componentAddr = true ->
  GetComponentDependencies (world s) componentAddr = inr [] ->
  Execute (S fuel) {[ PARAMETER_NAME := [identifier] ]} s
  = (DownloadComponent fuel componentAddr ;; ret [])
      (emit_all
         [ Log DEBUG ("Validating component " +:+ dquote +:+ identifier);
           Log DEBUG ("Component " +:+ dquote +:+ identifier +:+ dquote
                      +:+ " is specified correctly") ] s).
Proof.
  intros componentAddr Hvalid Hdeps.
  rewrite Execute_S, lookup_singleton_eq. unfold bind at 1.
  rewrite install_components_valid by exact Hvalid. fold componentAddr.
  unfold bind at 1.
  rewrite InstallDependencies_with_none by (simpl; by rewrite Hdeps).
  simpl. rewrite Hdeps. simpl. rewrite emit_all_nil.
  rewrite bind_ret_unit. reflexivity.
Qed.

(** X9. Dependencies come first: for a component that passes validation,
    the whole install of its first dependency, the download of that
    dependency included, is over before the component's own download
    starts, and that download starts whatever became of the dependency. *)
Theorem Execute_installs_dependency_before_download
    (fuel : nat) (identifier : string) (d : ScAddr) (rest : ScAddrVector)
    (s s' : State W) (plan : ExecutionResult) :
  let componentAddr := HelperFindBySystemIdtf (world s) identifier in
  let dependencyIdtf := HelperGetSystemIdtf (world s) d in
  validation_verdict (world s) componentAddr = true ->
  GetComponentDependencies (world s) componentAddr = inr (d :: rest) ->
  Execute fuel {[ PARAMETER_NAME := [dependencyIdtf] ]}
    (emit_all
       [ Log DEBUG ("Validating component " +:+ dquote +:+ identifier);
         Log DEBUG ("Component " +:+ dquote +:+ identifier +:+ dquote
                    +:+ " is specified correctly");
         Log INFO ("ScComponentManager: Install dependency " +:+ dquote
                   +:+ dependencyIdtf +:+ dquote) ] s)
  = Done plan s' ->
  Execute (S fuel) {[ PARAMETER_NAME := [identifier] ]} s
  = (DownloadComponent fuel componentAddr ;; ret [])
      (emit (Log ERROR ("Dependency " +:+ dquote +:+ dependencyIdtf
                        +:+ dquote +:+ " is not installed")) s').
Proof.
  intros componentAddr dependencyIdtf Hvalid Hdeps Hdependency.
  rewrite Execute_S, lookup_singleton_eq. unfold bind at 1.
  rewrite install_components_valid by exact Hvalid. fold componentAddr.
  unfold bind at 1.
  rewrite (InstallDependencies_with_run _ _ (d :: rest)) by exact Hdeps.
  unfold bind at 1. rewrite dependencies_loop_first.
  rewrite (emit_emit_all _ [_; _]). simpl. fold dependencyIdtf.
  unfold bind at 1. rewrite Hdependency.
  unfold bind at 1, SC_LOG at 1. simpl.
  rewrite bind_ret_unit. reflexivity.
Qed.

(** *** The trace as a journal of the platform *)

Lemma replay_app (evs evs' : list Event) (w : W) :
  replay (evs ++ evs') w = replay evs' (replay evs w).
Proof. apply foldl_app. Qed.

Lemma string_prefix_append_r (root a b : string) :
  String.prefix root a = true -> String.prefix root (a +:+ b) = true.
Proof.
  intros [x ->]%string_prefix_inv. rewrite string_append_assoc.
  apply string_prefix_append.
Qed.

Section Journal.

Lemma journaled_ret {A} (a : A) :
  journals under_specifications_path (ret a).
Proof. intros s. exists []. simpl. by rewrite app_nil_r. Qed.

Lemma journaled_throw {A} (e : StdException) :
  journals under_specifications_path (@throw W A e).
Proof. intros s. exists []. simpl. by rewrite app_nil_r. Qed.

Lemma journaled_out_of_fuel {A} :
  journals under_specifications_path (@out_of_fuel W A).
Proof. intros s. exact I. Qed.

Lemma journaled_ask {A} (q : W -> A) :
  journals under_specifications_path (ask q).
Proof. intros s. exists []. simpl. by rewrite app_nil_r. Qed.

Lemma journaled_SC_LOG (level : LogLevel) (message : string) :
  journals under_specifications_path (SC_LOG level message).
Proof.
  intros s. exists [Log level message]. simpl. split_and!; try done.
  by repeat constructor.
Qed.

Lemma journaled_perform (f : W -> W) (ev : Event) :
  (forall w, f w = apply_event ev w) ->
  under_specifications_path ev ->
  journals under_specifications_path (perform f ev).
Proof.
  intros Hf Hev s. exists [ev]. simpl. split_and!; try done.
  by repeat constructor.
Qed.

Lemma journaled_bind {A B} (c : M W A) (k : A -> M W B) :
  journals under_specifications_path c ->
  (forall a, journals under_specifications_path (k a)) ->
  journals under_specifications_path (bind c k).
Proof.
  intros Hc Hk s. unfold bind. specialize (Hc s).
  destruct (c s) as [a s1 | e s1 |]; [| done | done].
  destruct Hc as (evs & Htrace & Hworld & Hevs).
  specialize (Hk a s1). destruct (k a s1) as [b s2 | e s2 |]; [| | done];
    destruct Hk as (evs' & Htrace' & Hworld' & Hevs');
    exists (evs ++ evs');
    (split_and!;
     [ by rewrite Htrace', Htrace, app_assoc
     | by rewrite Hworld', Hworld, replay_app
     | by apply Forall_app ]).
Qed.

Create HintDb journal discriminated.
#[local] Hint Resolve journaled_ret journaled_throw journaled_out_of_fuel
  journaled_ask journaled_SC_LOG : journal.
#[local] Hint Extern 2 (journals _ (bind _ _)) =>
  apply journaled_bind; [| intros ?] : journal.
#[local] Hint Extern 3 (journals _ (match ?x with _ => _ end)) =>
  destruct x : journal.

Lemma journaled_try_lookup {A} (lookup : W -> ScException + A) (initial : A) :
  journals under_specifications_path (try_lookup lookup initial).
Proof. unfold try_lookup. auto 10 with journal. Qed.

Lemma journaled_ValidateComponent (componentAddr : ScAddr) :
  journals under_specifications_path (ValidateComponent componentAddr).
Proof.
  unfold ValidateComponent, GetLinkContent.
  pose proof @journaled_try_lookup. auto 20 with journal.
Qed.

Lemma journaled_load_entries (componentDirName : string)
    (entries : list string) :
  String.prefix m_specificationsPath componentDirName = true ->
  journals under_specifications_path (load_entries componentDirName entries).
Proof.
  intros Hdir. induction entries as [| filename rest IH]; simpl;
    [apply journaled_ret |].
  apply journaled_bind; [| intros _; exact IH].
  destruct (StdString.rfind filename ".scs"); [| apply journaled_ret].
  apply journaled_perform; [done |]. simpl.
  by apply string_prefix_append_r.
Qed.

Lemma journaled_clone_and_load (content segment componentDirName : string) :
  String.prefix m_specificationsPath componentDirName = true ->
  journals under_specifications_path
    (clone_and_load content segment componentDirName).
Proof.
  intros Hdir. unfold clone_and_load.
  apply journaled_bind; [by apply journaled_perform | intros _].
  apply journaled_bind.
  { apply journaled_perform; [done |]. simpl. by eexists _, _. }
  intros _. apply journaled_bind; [apply journaled_ask |].
  intros [entries |]; [| apply journaled_ret].
  apply journaled_load_entries. by apply string_prefix_append_r.
Qed.

Lemma free_dir_name_under_root (fuel : nat) (w : W) (segment : string) :
  forall name chosen,
    free_dir_name fuel w segment name = Some chosen ->
    String.prefix m_specificationsPath name = true ->
    String.prefix m_specificationsPath chosen = true.
Proof.
  induction fuel as [| fuel IH]; intros name chosen Hrun Hname;
    [discriminate |].
  simpl in Hrun. destruct (stat_ok w name).
  - apply (IH _ _ Hrun). by apply string_prefix_append_r.
  - by simplify_eq.
Qed.

Lemma journaled_DownloadComponent (fuel : nat) (componentAddr : ScAddr) :
  journals under_specifications_path (DownloadComponent fuel componentAddr).
Proof.
  unfold DownloadComponent.
  apply journaled_bind; [apply journaled_try_lookup | intros addr].
  apply journaled_bind; [apply journaled_ask | intros content].
  destruct (StdString.find content GITHUB_PREFIX); [| apply journaled_ret].
  destruct (StdString.substr content _) as [segment |];
    [| apply journaled_throw].
  intros s. unfold bind at 1, choose_dir_name.
  destruct (free_dir_name fuel (world s) segment _) as [chosen |] eqn:Hrun;
    [| exact I].
  apply journaled_clone_and_load.
  apply (free_dir_name_under_root _ _ _ _ _ Hrun), string_prefix_append.
Qed.

#[local] Hint Resolve journaled_try_lookup journaled_ValidateComponent
  journaled_DownloadComponent : journal.

Lemma journaled_dependencies_loop
    (exec : CommandParameters -> M W ExecutionResult) (deps : ScAddrVector) :
  (forall parameters, journals under_specifications_path (exec parameters)) ->
  forall result, journals under_specifications_path (dependencies_loop exec deps result).
Proof.
  intros Hexec. induction deps as [| d rest IH]; intros result; simpl;
    auto 12 with journal.
Qed.

Lemma journaled_install_components
    (exec : CommandParameters -> M W ExecutionResult) (fuel : nat)
    (identifiers : list string) :
  (forall parameters, journals under_specifications_path (exec parameters)) ->
  journals under_specifications_path (install_components exec fuel identifiers).
Proof.
  intros Hexec. pose proof (journaled_dependencies_loop exec) as Hloop.
  induction identifiers as [| identifier rest IH]; simpl;
    unfold InstallDependencies_with; auto 16 with journal.
Qed.

Lemma journaled_Execute (fuel : nat) :
  forall commandParameters, journals under_specifications_path (Execute fuel commandParameters).
Proof.
  induction fuel as [| fuel IH]; intros commandParameters; simpl.
  - apply journaled_out_of_fuel.
  - pose proof (journaled_install_components (Execute fuel) fuel) as Hloop.
    destruct (commandParameters !! PARAMETER_NAME); auto 10 with journal.
Qed.

End Journal.

Lemma replay_logs (evs : list Event) (w : W) :
  Forall (fun ev => is_log ev = true) evs -> replay evs w = w.
Proof.
  induction 1 as [| [] evs Hlog Hlogs IH]; simplify_eq; [reflexivity |].
  exact IH.
Qed.

(** X10. The trace is a journal of what [Execute] does to the platform:
    the run appends events to it, and the platform it leaves is the one it
    found with the calls those events stand for made in that order.  If the
    run added log lines only, the platform is untouched.  Every directory
    made and every file loaded has a path that starts with the
    specifications path, and the only commands run are [git clone]s in such
    directories. *)
Theorem Execute_changes_are_journaled
    (fuel : nat) (commandParameters : CommandParameters)
    (s s' : State W) (plan : ExecutionResult) :
  Execute fuel commandParameters s = Done plan s' ->
  exists evs,
    trace s' = trace s ++ evs
    /\ world s' = replay evs (world s)
    /\ Forall under_specifications_path evs
    /\ (Forall (fun ev => is_log ev = true) evs -> world s' = world s).
Proof.
  intros Hrun. pose proof (journaled_Execute fuel commandParameters s) as Hj.
  rewrite Hrun in Hj. destruct Hj as (evs & Htrace & Hworld & Hevs).
  exists evs. split_and!; try done.
  intros Hlogs. by rewrite Hworld, replay_logs.
Qed.

(** *** What the fetch does *)

(** Creating the directory, cloning and loading always come to an end. *)
Lemma clone_and_load_returns (content segment name : string) (s : State W) :
  exists s', clone_and_load content segment name s = Done tt s'.
Proof.
  unfold clone_and_load.
  unfold bind at 1, perform at 1. unfold bind at 1, perform at 1.
  unfold bind at 1, ask at 1.
  destruct (read_directory _ _) as [entries |]; [| by eexists].
  destruct (load_entries_trace (name +:+ segment) entries
              (emit (Exec ["cd"; name; "&&"; "git clone "; content])
                 (mkState
                    (ScExec ["cd"; name; "&&"; "git clone "; content]
                       (world (emit (Mkdirs name)
                                 (mkState (sc_fs_mkdirs name (world s))
                                    (trace s)))))
                    (trace (emit (Mkdirs name)
                              (mkState (sc_fs_mkdirs name (world s))
                                 (trace s)))))))
    as (s' & Hrun & _).
  by exists s'.
Qed.

(** X11. Once the directory is chosen the fetch cannot fail as far as the
    command can tell: [clone_and_load] always returns, having made the
    directory, run one [git clone] in it and loaded, in the order of the
    directory, the entries of the clone whose name contains [.scs]; when
    the clone cannot be opened nothing is loaded. *)
Theorem clone_and_load_events
    (componentAddressContent segment componentDirName : string)
    (s : State W) :
  let command :=
    ["cd"; componentDirName; "&&"; "git clone "; componentAddressContent] in
  let cloned := ScExec command (sc_fs_mkdirs componentDirName (world s)) in
  let entries :=
    default [] (read_directory cloned (componentDirName +:+ segment)) in
  exists s',
    clone_and_load componentAddressContent segment componentDirName s
    = Done tt s'
    /\ trace s'
       = trace s
         ++ [Mkdirs componentDirName; Exec command]
         ++ ((fun filename =>
                LoadScs ((componentDirName +:+ segment) +:+ "/" +:+ filename))
               <$> loaded_entries entries).
Proof.
  intros command cloned entries. unfold clone_and_load.
  unfold bind at 1, perform at 1. unfold bind at 1, perform at 1.
  unfold bind at 1, ask at 1. simpl. fold command cloned.
  subst entries. destruct (read_directory cloned _) as [entries |]; simpl.
  - destruct (load_entries_trace (componentDirName +:+ segment) entries
                (emit (Exec command)
                   (mkState cloned (trace s ++ [Mkdirs componentDirName]))))
      as (s' & Hrun & Htrace).
    exists s'. split; [exact Hrun |]. rewrite Htrace. simpl.
    by rewrite <- !app_assoc.
  - eexists. split; [reflexivity |]. simpl. by rewrite <- !app_assoc.
Qed.

(** X12. Every entry of the directory whose name ends in [.scs] is handed
    to the loader, and whatever is handed to the loader is an entry of the
    directory whose name contains [.scs]. *)
Theorem load_entries_loads_scs_files
    (componentDirName : string) (entries : list string) (s : State W) :
  exists s',
    load_entries componentDirName entries s = Done tt s'
    /\ (forall filename,
          filename ∈ entries ->
          StdString.ends_with filename ".scs" = true ->
          LoadScs (componentDirName +:+ "/" +:+ filename) ∈ trace s')
    /\ (forall path,
          LoadScs path ∈ trace s' ->
          LoadScs path ∈ trace s
          \/ exists filename,
               filename ∈ entries
               /\ is_Some (StdString.rfind filename ".scs")
               /\ path = componentDirName +:+ "/" +:+ filename).
Proof.
  destruct (load_entries_trace componentDirName entries s)
    as (s' & Hrun & Htrace).
  exists s'. split; [exact Hrun |]. rewrite Htrace. split.
  - intros filename Hin Hends. apply elem_of_app. right.
    apply list_elem_of_fmap. exists filename. split; [reflexivity |].
    apply list_elem_of_filter. split; [| exact Hin].
    by apply ends_with_rfind.
  - intros path [Hold | Hnew]%elem_of_app; [by left | right].
    apply list_elem_of_fmap in Hnew as (filename & Hpath & Hin).
    apply list_elem_of_filter in Hin as [Hscs Hin].
    exists filename. split_and!; [exact Hin | exact Hscs | congruence].
Qed.


(** *** The segment of the address *)

(** What follows the last [c] of a string starts with that [c] and has no
    other. *)
Lemma rfind_char_last (s : string) (c : ascii) :
  forall i, StdString.rfind_char s c = Some i ->
            exists rest,
              StdString.drop_chars i s = String c rest
              /\ StdString.rfind_char rest c = None.
Proof.
  unfold StdString.rfind_char.
  induction s as [| a s IH]; intros i Hi; simpl in Hi; [discriminate |].
  destruct (StdString.rfind s (String c EmptyString)) as [j |] eqn:Hj.
  - simplify_eq. simpl. by apply IH.
  - destruct (ascii_dec c a) as [<- |]; [| discriminate].
    destruct s; simpl in Hi; simplify_eq; by eexists.
Qed.

(** X13. When the prefix that marks a GitHub address has a slash in it, as
    a URL prefix has, every address in which it occurs has a last slash:
    the [substr] of line 198 is not called at [npos] and does not throw,
    the segment it gives is that slash and the text after it, with no
    slash in it, and [DownloadComponent] goes on to the search for a
    directory name and to the fetch with that segment. *)
Theorem DownloadComponent_segment_of_recognized_address
    (fuel : nat) (componentAddr : ScAddr) (s : State W) (position : nat) :
  let componentAddressContent :=
    resolved_address_content (world s) componentAddr in
  is_Some (StdString.rfind_char GITHUB_PREFIX "/") ->
  StdString.find componentAddressContent GITHUB_PREFIX = Some position ->
  exists rest,
    StdString.substr componentAddressContent
      (StdString.rfind_char componentAddressContent "/")
    = Some (String "/" rest)
    /\ StdString.rfind_char rest "/" = None
    /\ DownloadComponent fuel componentAddr s
       = (componentDirName <-
            choose_dir_name fuel (String "/" rest)
              (m_specificationsPath +:+ String "/" rest) ;;
          clone_and_load componentAddressContent (String "/" rest)
            componentDirName)
           (emit_all (lookup_errors
                        (GetComponentAddress (world s) componentAddr)) s).
Proof.
  intros content Hslash Hfind.
  destruct (find_Some_split _ _ _ Hfind) as (a & b & Hsplit).
  assert (is_Some (StdString.rfind_char content "/")) as [i Hi].
  { rewrite Hsplit. apply rfind_char_append. right.
    apply rfind_char_append. by left. }
  destruct (rfind_char_last _ _ _ Hi) as (rest & Hrest & Hlast).
  assert (StdString.substr content (StdString.rfind_char content "/")
          = Some (String "/" rest)) as Hsegment.
  { rewrite Hi. unfold StdString.substr.
    pose proof (rfind_le _ _ _ Hi) as Hle. apply Nat.leb_le in Hle.
    by rewrite Hle, Hrest. }
  exists rest. split_and!; [exact Hsegment | exact Hlast |].
  rewrite DownloadComponent_run. fold content. cbv zeta.
  by rewrite Hfind, Hsegment.
Qed.

(** *** The search for a directory name *)

Lemma staging_name_length (root segment : string) (k : nat) :
  String.length (staging_name root segment k)
  = String.length root + S k * String.length segment.
Proof.
  induction k as [| k IH]; simpl staging_name;
    rewrite string_length_append; [lia |].
  rewrite IH. lia.
Qed.

Lemma staging_name_inj (root segment : string) (j k : nat) :
  segment <> EmptyString ->
  staging_name root segment j = staging_name root segment k -> j = k.
Proof.
  intros Hsegment Hsame. apply (f_equal String.length) in Hsame.
  rewrite !staging_name_length in Hsame.
  destruct segment as [| c segment]; [done |]. simpl in Hsame. nia.
Qed.

Lemma bounded_search (P : nat -> bool) (n : nat) :
  (exists k, k <= n /\ P k = false) \/ (forall k, k <= n -> P k = true).
Proof.
  induction n as [| n [(k & Hk & Hfalse) | Hall]].
  - destruct (P 0) eqn:H0; [right | left].
    + intros k Hk. by replace k with 0 by lia.
    + exists 0. by split.
  - left. exists k. split; [lia | exact Hfalse].
  - destruct (P (S n)) eqn:Hn; [right | left].
    + intros k Hk. destruct (decide (k = S n)) as [-> |]; [exact Hn |].
      apply Hall. lia.
    + exists (S n). by split.
Qed.

(** Among the first candidates, one more than there are paths on the disk,
    one is free. *)
Lemma free_candidate_exists (w : W) (root segment : string)
    (paths : list string) :
  disk_within w paths ->
  segment <> EmptyString ->
  exists k, k <= length paths
            /\ stat_ok w (staging_name root segment k) = false.
Proof.
  intros Hdisk Hsegment.
  destruct (bounded_search (fun k => stat_ok w (staging_name root segment k))
              (length paths)) as [Hfree | Hall]; [exact Hfree |].
  exfalso.
  assert (staging_name root segment <$> seq 0 (S (length paths)) ⊆+ paths)
    as Hsub.
  { apply NoDup_submseteq.
    - apply NoDup_fmap_2_strong; [| apply NoDup_seq].
      intros j k _ _. by apply staging_name_inj.
    - intros name (k & -> & Hk%elem_of_seq)%list_elem_of_fmap.
      apply Hdisk, Hall. lia. }
  apply submseteq_length in Hsub.
  rewrite length_fmap, length_seq in Hsub. lia.
Qed.

(** X15. On a disk where [stat] finds finitely many paths the search for a
    directory name ends: for a recognized address with a final segment it
    takes at most one turn more than there are paths, and the clone goes
    into a directory that did not exist. *)
Theorem DownloadComponent_search_ends_on_finite_disk
    (fuel : nat) (componentAddr : ScAddr) (s : State W)
    (position : nat) (segment : string) (paths : list string) :
  let componentAddressContent :=
    resolved_address_content (world s) componentAddr in
  StdString.find componentAddressContent GITHUB_PREFIX = Some position ->
  StdString.substr componentAddressContent
    (StdString.rfind_char componentAddressContent "/") = Some segment ->
  disk_within (world s) paths ->
  length paths < fuel ->
  exists k,
    k <= length paths
    /\ stat_ok (world s) (staging_name m_specificationsPath segment k) = false
    /\ DownloadComponent fuel componentAddr s
       = clone_and_load componentAddressContent segment
           (staging_name m_specificationsPath segment k)
           (emit_all (lookup_errors
                        (GetComponentAddress (world s) componentAddr)) s).
Proof.
  intros content Hfind Hsegment Hdisk Hfuel.
  assert (segment <> EmptyString) as Hne.
  { unfold StdString.substr in Hsegment.
    destruct (StdString.rfind_char content "/") as [i |] eqn:Hi;
      [| discriminate].
    destruct (rfind_char_segment _ _ _ Hi) as [rest Hrest].
    destruct (i <=? String.length content); [| discriminate].
    intros ->. congruence. }
  destruct (free_candidate_exists (world s) m_specificationsPath segment
              paths Hdisk Hne) as (k & Hk & Hfree).
  destruct (free_dir_name_first_free (world s) m_specificationsPath segment
              k 0 fuel Hfree ltac:(lia)) as (k0 & Hle & Hrun & Hk0 & _).
  exists k0. split_and!; [lia | exact Hk0 |].
  rewrite DownloadComponent_run. fold content. cbv zeta.
  rewrite Hfind, Hsegment. unfold bind, choose_dir_name.
  rewrite world_emit_all. simpl in Hrun. by rewrite Hrun.
Qed.

End Command.

(** ** The command on the concrete platform *)

Import Demo.

(** [cycle_a] and [cycle_b] pass validation and each has the other as its
    first dependency. *)
Lemma cycle_a_chain_cycles : install_chain_cycles initial "cycle_a".
Proof.
  exists "cycle_a". split; [reflexivity |].
  apply (tc_l _ _ "cycle_b"); [| apply tc_once].
  - split; [by vm_compute |]. exists 2%N, []. by vm_compute.
  - split; [by vm_compute |]. exists 1%N, []. by vm_compute.
Qed.

(** C1. The plan [Execute] returns does not list the dependencies it
    installed.  [app] depends on [lib]; the request for [app] makes the
    directory of [lib], clones it and loads its files, then does the same
    for [app], and returns the empty plan, not the plan [lib]. *)
Theorem Execute_plan_omits_installed_dependency :
  exists s',
    Execute PARAMETER_NAME GITHUB_PREFIX specifications_path 5
      {[ PARAMETER_NAME := ["app"] ]} start = Done [] s'
    /\ GetComponentDependencies initial
         (HelperFindBySystemIdtf initial "app") = inr [4%N]
    /\ HelperGetSystemIdtf initial 4%N = "lib"
    /\ filter (fun ev => is_log ev = false) (trace s')
       = [ Mkdirs "/specs/lib/lib";
           Exec ["cd"; "/specs/lib/lib"; "&&"; "git clone ";
                 "https://github.com/demo/lib"];
           LoadScs "/specs/lib/lib/lib/lib.scs";
           LoadScs "/specs/lib/lib/lib/notes.scs.txt";
           Mkdirs "/specs/app";
           Exec ["cd"; "/specs/app"; "&&"; "git clone ";
                 "https://github.com/demo/app"];
           LoadScs "/specs/app/app/app.scs" ].
Proof. eexists. split_and!; by vm_compute. Qed.

(** C6. The loader is given every entry whose name contains [.scs], not
    only those that end in it: in the clone of [lib], [notes.scs.txt] is
    loaded along with [lib.scs]. *)
Theorem DownloadComponent_loads_name_not_ending_in_scs :
  exists s',
    DownloadComponent GITHUB_PREFIX specifications_path 2 4%N start
    = Done tt s'
    /\ read_directory (world s') "/specs/lib/lib/lib"
       = Some [ "."; ".."; "lib.scs"; "notes.scs.txt"; "LICENSE" ]
    /\ trace s'
       = [ Mkdirs "/specs/lib/lib";
           Exec ["cd"; "/specs/lib/lib"; "&&"; "git clone ";
                 "https://github.com/demo/lib"];
           LoadScs "/specs/lib/lib/lib/lib.scs";
           LoadScs "/specs/lib/lib/lib/notes.scs.txt" ]
    /\ StdString.ends_with "notes.scs.txt" ".scs" = false
    /\ StdString.ends_with "lib.scs" ".scs" = true.
Proof. eexists. split_and!; by vm_compute. Qed.

(** C7. An address that does not start with the GitHub prefix is fetched
    all the same when the prefix occurs further on in it: for the proxied
    address the directory is made and [git clone] is run. *)
Theorem DownloadComponent_fetches_address_not_starting_with_prefix :
  link_content Proxied.initial 101%N
  = Some "https://ghproxy.example/https://github.com/demo/lib"
  /\ String.prefix GITHUB_PREFIX
       "https://ghproxy.example/https://github.com/demo/lib" = false
  /\ StdString.find "https://ghproxy.example/https://github.com/demo/lib"
       GITHUB_PREFIX = Some 24
  /\ exists s',
       DownloadComponent GITHUB_PREFIX specifications_path 1 1%N
         (mkState Proxied.initial []) = Done tt s'
       /\ trace s'
          = [ Mkdirs "/specs/lib";
              Exec ["cd"; "/specs/lib"; "&&"; "git clone ";
                    "https://ghproxy.example/https://github.com/demo/lib"] ]
       /\ stat_ok (world s') "/specs/lib" = true.
Proof.
  split_and!; try by vm_compute.
  eexists. split_and!; by vm_compute.
Qed.

(** The test of line 192 looks for the prefix anywhere in the address
    string, not only at its start. *)
Remark prefix_test_is_a_search :
  StdString.find "ssh://mirror/https://github.com/demo/lib" GITHUB_PREFIX
  = Some 13.
Proof. reflexivity. Qed.




(** *** The general theorems at work *)

Lemma lib_address_link_is_valid : address_link_is_valid initial 4%N.
Proof.
  exists 104%N, "https://github.com/demo/lib". split_and!; by vm_compute.
Defined.

Lemma broken_method_address_link_is_valid : address_link_is_valid initial 9%N.
Proof.
  exists 109%N, "https://github.com/demo/broken_method".
  split_and!; by vm_compute.
Defined.

(** [lib] passes the four checks; [gate_b], which lacks the reusable tag,
    is turned away at the second with that one warning. *)
Lemma ValidateComponent_checks_witness :
  (exists log, ValidateComponent 4%N start = Done true (emit_all log start))
  /\ ValidateComponent 6%N start
     = Done false
         (emit_all [Log WARNING "Component is not a reusable component."]
                   start).
Proof.
  split.
  - destruct (ValidateComponent_checks 4%N start)
      as (verdict & log & Hrun & Hiff & _).
    exists log. rewrite Hrun. f_equal. apply Hiff. split_and!.
    + reflexivity.
    + reflexivity.
    + exact lib_address_link_is_valid.
    + exists 204%N. split; reflexivity.
  - destruct (ValidateComponent_checks 6%N start)
      as (verdict & log & Hrun & _ & _ & Hsecond & _ & _ & Hreject).
    rewrite Hrun, Hreject, Hsecond.
    + reflexivity.
    + reflexivity.
    + unfold component_is_reusable. vm_compute. discriminate.
    + unfold component_is_reusable. vm_compute. discriminate.
Defined.

Lemma ValidateComponent_catches_store_errors_witness :
  ValidateComponent 8%N start
  = Done false
      (emit_all [ Log ERROR "ItemNotFound"; Log ERROR "no such relation";
                  Log WARNING "Component address not found." ] start)
  /\ ValidateComponent 9%N start
     = Done false
         (emit_all [ Log ERROR "ItemNotFound"; Log ERROR "no such relation";
                     Log WARNING "Component installation method not found." ]
                   start).
Proof.
  split.
  - apply (proj1 (proj2 (ValidateComponent_catches_store_errors 8%N start))
             not_found); reflexivity.
  - apply (proj2 (proj2 (ValidateComponent_catches_store_errors 9%N start))
             not_found).
    + reflexivity.
    + reflexivity.
    + exact broken_method_address_link_is_valid.
    + reflexivity.
Defined.

(** The address of [local] is a [file://] one. *)
Lemma DownloadComponent_unrecognized_address_is_noop_witness :
  DownloadComponent GITHUB_PREFIX specifications_path 0 7%N start
  = Done tt start.
Proof.
  assert (StdString.find (resolved_address_content (world start) 7%N)
            GITHUB_PREFIX = None) as Hunrecognized
    by (vm_compute; reflexivity).
  apply (proj2 (DownloadComponent_unrecognized_address_is_noop
                  GITHUB_PREFIX specifications_path 0 7%N start
                  Hunrecognized) 107%N).
  reflexivity.
Defined.

(** [/specs/lib] exists on the disk, [/specs/lib/lib] does not. *)
Lemma DownloadComponent_staging_directory_witness :
  exists k0,
    k0 <= 1
    /\ stat_ok initial (staging_name specifications_path "/lib" k0) = false
    /\ (forall i, i < k0 ->
          stat_ok initial (staging_name specifications_path "/lib" i) = true)
    /\ DownloadComponent GITHUB_PREFIX specifications_path 2 4%N start
       = clone_and_load "https://github.com/demo/lib" "/lib"
           (staging_name specifications_path "/lib" k0)
           (emit_all [] start).
Proof.
  assert (1 < 2) as Hfuel by lia.
  exact (DownloadComponent_staging_directory GITHUB_PREFIX specifications_path
           2 4%N start 0 "/lib" 1 eq_refl eq_refl eq_refl Hfuel).
Defined.

Lemma Execute_unknown_identifier_witness :
  Execute PARAMETER_NAME GITHUB_PREFIX specifications_path 1
    {[ PARAMETER_NAME := ["X"; "Y"] ]} start
  = Execute PARAMETER_NAME GITHUB_PREFIX specifications_path 1
      (<[ PARAMETER_NAME := ["Y"] ]> {[ PARAMETER_NAME := ["X"; "Y"] ]})
      (emit_all (rejection_log "X") start)
  /\ Execute PARAMETER_NAME GITHUB_PREFIX specifications_path 1
       {[ PARAMETER_NAME := ["X"; "Y"] ]} start
     = Done [] (emit_all (rejection_log "X" ++ rejection_log "Y" ++ []) start).
Proof.
  split.
  - apply (proj1 (Execute_unknown_identifier PARAMETER_NAME GITHUB_PREFIX
                    specifications_path 0 _ start)).
    + reflexivity.
    + reflexivity.
  - apply (proj2 (Execute_unknown_identifier PARAMETER_NAME GITHUB_PREFIX
                    specifications_path 0 _ start) ["X"; "Y"]).
    + reflexivity.
    + repeat constructor.
Defined.

(** [gate_a] passes validation; the install of its dependency [gate_b]
    fails, [InstallDependencies] returns the empty plan, and [gate_a] is
    downloaded all the same. *)
Lemma Execute_downloads_after_any_dependency_result_witness :
  exists validated installed,
    ValidateComponent 5%N
      (emit (Log DEBUG ("Validating component " +:+ dquote +:+ "gate_a"))
            start)
    = Done true validated
    /\ InstallDependencies PARAMETER_NAME GITHUB_PREFIX specifications_path 3
         5%N
         (emit (Log DEBUG ("Component " +:+ dquote +:+ "gate_a" +:+ dquote
                           +:+ " is specified correctly")) validated)
       = Done [] installed
    /\ Execute PARAMETER_NAME GITHUB_PREFIX specifications_path 4
         {[ PARAMETER_NAME := ["gate_a"] ]} start
       = ((DownloadComponent GITHUB_PREFIX specifications_path 3 5%N ;;
           install_components PARAMETER_NAME GITHUB_PREFIX specifications_path
             (Execute PARAMETER_NAME GITHUB_PREFIX specifications_path 3) 3 []) ;;
          ret []) installed.
Proof.
  destruct (ValidateComponent 5%N
              (emit (Log DEBUG ("Validating component " +:+ dquote
                                +:+ "gate_a")) start))
    as [[|] validated | |] eqn:Hvalid;
    try (vm_compute in Hvalid; discriminate).
  destruct (InstallDependencies PARAMETER_NAME GITHUB_PREFIX
              specifications_path 3 5%N
              (emit (Log DEBUG ("Component " +:+ dquote +:+ "gate_a"
                                +:+ dquote +:+ " is specified correctly"))
                    validated))
    as [[| dependency plan] installed | |] eqn:Hdeps;
    try (injection Hvalid as <-; vm_compute in Hdeps; discriminate).
  exists validated, installed. split_and!; [reflexivity | exact Hdeps |].
  exact (Execute_downloads_after_any_dependency_result PARAMETER_NAME
           GITHUB_PREFIX specifications_path 3
           {[ PARAMETER_NAME := ["gate_a"] ]} "gate_a" [] start
           validated installed [] eq_refl Hvalid Hdeps).
Defined.

(** [suite] depends on [lib] and [local], in that order; the install of
    [lib] returns the empty plan, and [local] is never looked at. *)
Lemma InstallDependencies_stops_at_empty_plan_witness :
  exists failed,
    Execute PARAMETER_NAME GITHUB_PREFIX specifications_path 3
      {[ PARAMETER_NAME := ["lib"] ]}
      (emit (Log INFO ("ScComponentManager: Install dependency " +:+ dquote
                       +:+ "lib" +:+ dquote)) start)
    = Done [] failed
    /\ InstallDependencies PARAMETER_NAME GITHUB_PREFIX specifications_path 3
         10%N start
       = Done []
           (emit (Log ERROR ("Dependency " +:+ dquote +:+ "lib" +:+ dquote
                             +:+ " is not installed")) failed)
    /\ trace start `prefix_of` trace failed.
Proof.
  destruct (Execute PARAMETER_NAME GITHUB_PREFIX specifications_path 3
              {[ PARAMETER_NAME := ["lib"] ]}
              (emit (Log INFO ("ScComponentManager: Install dependency "
                               +:+ dquote +:+ "lib" +:+ dquote)) start))
    as [[| dependency plan] failed | |] eqn:Hfailed;
    try (vm_compute in Hfailed; discriminate).
  exists failed. split; [reflexivity |].
  exact (InstallDependencies_stops_at_empty_plan PARAMETER_NAME GITHUB_PREFIX
           specifications_path 3 10%N [] 4%N [7%N] [] start start failed
           eq_refl eq_refl Hfailed).
Defined.

(** *** The further properties at work *)

Lemma Execute_without_identifiers_witness :
  Execute PARAMETER_NAME GITHUB_PREFIX specifications_path 1
    {[ "force" := ["yes"] ]} start
  = Done []
      (emit (Log INFO
               "No identifier provided, installing all to install components")
            start)
  /\ Execute PARAMETER_NAME GITHUB_PREFIX specifications_path 1
       {[ PARAMETER_NAME := [] ]} start
     = Done [] start.
Proof.
  split.
  - apply (proj1 (Execute_without_identifiers PARAMETER_NAME GITHUB_PREFIX
                    specifications_path 0 {[ "force" := ["yes"] ]} start)).
    reflexivity.
  - apply (proj1 (proj2 (Execute_without_identifiers PARAMETER_NAME
                           GITHUB_PREFIX specifications_path 0
                           {[ PARAMETER_NAME := [] ]} start))).
    reflexivity.
Defined.

Lemma ValidateComponent_is_repeatable_witness :
  ValidateComponent 4%N start = Done true start
  /\ exists s1, ValidateComponent 6%N start = Done false s1
                /\ exists s2, ValidateComponent 6%N s1 = Done false s2.
Proof.
  split.
  - destruct (ValidateComponent_is_repeatable 4%N start)
      as ([|] & s1 & s2 & Hrun & _ & _ & Hsilent & _).
    + by rewrite Hrun, Hsilent.
    + vm_compute in Hrun. discriminate.
  - destruct (ValidateComponent_is_repeatable 6%N start)
      as ([|] & s1 & s2 & Hrun & _ & Hagain & _).
    + vm_compute in Hrun. discriminate.
    + exists s1. split; [exact Hrun |]. by exists s2.
Defined.

Lemma Execute_skips_rejected_component_witness :
  Execute PARAMETER_NAME GITHUB_PREFIX specifications_path 1
    {[ PARAMETER_NAME := ["gate_b"; "local"] ]} start
  = Execute PARAMETER_NAME GITHUB_PREFIX specifications_path 1
      (<[ PARAMETER_NAME := ["local"] ]>
         {[ PARAMETER_NAME := ["gate_b"; "local"] ]})
      (emit_all
         [ Log DEBUG ("Validating component " +:+ dquote +:+ "gate_b");
           Log WARNING "Component is not a reusable component.";
           Log WARNING ("Unable to install component " +:+ dquote
                        +:+ "gate_b") ] start).
Proof.
  exact (Execute_skips_rejected_component PARAMETER_NAME GITHUB_PREFIX
           specifications_path 0 {[ PARAMETER_NAME := ["gate_b"; "local"] ]}
           "gate_b" ["local"] start eq_refl eq_refl).
Defined.

Lemma Execute_concatenated_requests_witness :
  Execute PARAMETER_NAME GITHUB_PREFIX specifications_path 3
    {[ PARAMETER_NAME := ["lib"; "X"; "app"] ]} start
  = (Execute PARAMETER_NAME GITHUB_PREFIX specifications_path 3
       {[ PARAMETER_NAME := ["lib"] ]} ;;
     Execute PARAMETER_NAME GITHUB_PREFIX specifications_path 3
       {[ PARAMETER_NAME := ["X"; "app"] ]}) start.
Proof.
  exact (Execute_concatenated_requests PARAMETER_NAME GITHUB_PREFIX
           specifications_path 2 {[ PARAMETER_NAME := ["lib"; "X"; "app"] ]}
           ["lib"] ["X"; "app"] start eq_refl).
Defined.

Lemma plans_are_always_empty_witness :
  exists s',
    Execute PARAMETER_NAME GITHUB_PREFIX specifications_path 5
      {[ PARAMETER_NAME := ["app"] ]} start = Done [] s'.
Proof.
  destruct (Execute PARAMETER_NAME GITHUB_PREFIX specifications_path 5
              {[ PARAMETER_NAME := ["app"] ]} start)
    as [plan s' | |] eqn:Hrun; try (vm_compute in Hrun; discriminate).
  exists s'. f_equal.
  exact (proj1 (plans_are_always_empty PARAMETER_NAME GITHUB_PREFIX
                  specifications_path 5 start s' plan) _ Hrun).
Defined.

Lemma InstallDependencies_installs_first_dependency_only_witness :
  InstallDependencies PARAMETER_NAME GITHUB_PREFIX specifications_path 3
    10%N start
  = (Execute PARAMETER_NAME GITHUB_PREFIX specifications_path 3
       {[ PARAMETER_NAME := ["lib"] ]} ;;
     SC_LOG ERROR ("Dependency " +:+ dquote +:+ "lib" +:+ dquote
                   +:+ " is not installed") ;;
     ret [])
      (emit (Log INFO ("ScComponentManager: Install dependency " +:+ dquote
                       +:+ "lib" +:+ dquote)) start).
Proof.
  exact (InstallDependencies_installs_first_dependency_only PARAMETER_NAME
           GITHUB_PREFIX specifications_path 3 10%N 4%N [7%N] start eq_refl).
Defined.

Lemma InstallDependencies_without_dependencies_witness :
  InstallDependencies PARAMETER_NAME GITHUB_PREFIX specifications_path 0
    4%N start = Done [] start
  /\ InstallDependencies PARAMETER_NAME GITHUB_PREFIX specifications_path 0
       99%N start
     = Done []
         (emit_all [ Log ERROR "ItemNotFound"; Log ERROR "no such relation" ]
                   start).
Proof.
  split.
  - exact (proj1 (InstallDependencies_without_dependencies PARAMETER_NAME
                    GITHUB_PREFIX specifications_path 0 4%N start) eq_refl).
  - exact (proj2 (InstallDependencies_without_dependencies PARAMETER_NAME
                    GITHUB_PREFIX specifications_path 0 99%N start)
             not_found eq_refl).
Defined.

Lemma Execute_component_without_dependencies_witness :
  Execute PARAMETER_NAME GITHUB_PREFIX specifications_path 3
    {[ PARAMETER_NAME := ["lib"] ]} start
  = (DownloadComponent GITHUB_PREFIX specifications_path 2 4%N ;; ret [])
      (emit_all
         [ Log DEBUG ("Validating component " +:+ dquote +:+ "lib");
           Log DEBUG ("Component " +:+ dquote +:+ "lib" +:+ dquote
                      +:+ " is specified correctly") ] start).
Proof.
  exact (Execute_component_without_dependencies PARAMETER_NAME GITHUB_PREFIX
           specifications_path 2 "lib" start eq_refl eq_refl).
Defined.

Lemma Execute_installs_dependency_before_download_witness :
  exists s',
    Execute PARAMETER_NAME GITHUB_PREFIX specifications_path 4
      {[ PARAMETER_NAME := ["app"] ]} start
    = (DownloadComponent GITHUB_PREFIX specifications_path 3 3%N ;; ret [])
        (emit (Log ERROR ("Dependency " +:+ dquote +:+ "lib" +:+ dquote
                          +:+ " is not installed")) s')
    /\ Mkdirs "/specs/lib/lib" ∈ trace s'.
Proof.
  destruct (Execute PARAMETER_NAME GITHUB_PREFIX specifications_path 3
              {[ PARAMETER_NAME := ["lib"] ]}
              (emit_all
                 [ Log DEBUG ("Validating component " +:+ dquote +:+ "app");
                   Log DEBUG ("Component " +:+ dquote +:+ "app" +:+ dquote
                              +:+ " is specified correctly");
                   Log INFO ("ScComponentManager: Install dependency "
                             +:+ dquote +:+ "lib" +:+ dquote) ] start))
    as [plan s' | |] eqn:Hdependency;
    try (vm_compute in Hdependency; discriminate).
  exists s'. split.
  - exact (Execute_installs_dependency_before_download PARAMETER_NAME
             GITHUB_PREFIX specifications_path 3 "app" 4%N [] start s' plan
             eq_refl eq_refl Hdependency).
  - vm_compute in Hdependency. injection Hdependency as _ <-.
    simpl. set_solver.
Defined.

Lemma Execute_changes_are_journaled_witness :
  exists s' evs,
    Execute PARAMETER_NAME GITHUB_PREFIX specifications_path 5
      {[ PARAMETER_NAME := ["app"] ]} start = Done [] s'
    /\ trace s' = trace start ++ evs
    /\ world s' = replay evs initial
    /\ Forall (under_specifications_path specifications_path) evs.
Proof.
  destruct (Execute PARAMETER_NAME GITHUB_PREFIX specifications_path 5
              {[ PARAMETER_NAME := ["app"] ]} start)
    as [[| identifier plan] s' | |] eqn:Hrun;
    try (vm_compute in Hrun; discriminate).
  destruct (Execute_changes_are_journaled PARAMETER_NAME GITHUB_PREFIX
              specifications_path 5 _ start s' [] Hrun)
    as (evs & Htrace & Hworld & Hevs & _).
  by exists s', evs.
Defined.

Lemma load_entries_loads_scs_files_witness :
  exists s',
    load_entries "/specs/lib/lib/lib" ["lib.scs"; "LICENSE"] start = Done tt s'
    /\ LoadScs "/specs/lib/lib/lib/lib.scs" ∈ trace s'.
Proof.
  destruct (load_entries_loads_scs_files "/specs/lib/lib/lib"
              ["lib.scs"; "LICENSE"] start) as (s' & Hrun & Hloaded & _).
  exists s'. split; [exact Hrun |].
  apply (Hloaded "lib.scs"); [set_solver | reflexivity].
Defined.

Lemma DownloadComponent_segment_of_recognized_address_witness :
  exists rest,
    StdString.substr "https://github.com/demo/lib"
      (StdString.rfind_char "https://github.com/demo/lib" "/")
    = Some (String "/" rest)
    /\ StdString.rfind_char rest "/" = None
    /\ DownloadComponent GITHUB_PREFIX specifications_path 2 4%N start
       = (componentDirName <-
            choose_dir_name 2 (String "/" rest)
              (specifications_path +:+ String "/" rest) ;;
          clone_and_load "https://github.com/demo/lib" (String "/" rest)
            componentDirName) (emit_all [] start).
Proof.
  assert (is_Some (StdString.rfind_char GITHUB_PREFIX "/")) as Hslash
    by (by exists 18).
  exact (DownloadComponent_segment_of_recognized_address GITHUB_PREFIX
           specifications_path 2 4%N start 0 Hslash eq_refl).
Defined.

Lemma demo_disk_is_finite :
  disk_within initial ["/specs"; "/specs/lib"].
Proof.
  intros path Hstat. apply bool_decide_eq_true in Hstat.
  change (path ∈ ({[ "/specs"; "/specs/lib" ]} : gset string)) in Hstat.
  apply elem_of_union in Hstat as [Hstat | Hstat];
    apply elem_of_singleton in Hstat as ->.
  - apply list_elem_of_here.
  - apply list_elem_of_further, list_elem_of_here.
Defined.

Lemma DownloadComponent_search_ends_on_finite_disk_witness :
  exists k,
    k <= 2
    /\ stat_ok initial (staging_name specifications_path "/lib" k) = false
    /\ DownloadComponent GITHUB_PREFIX specifications_path 3 4%N start
       = clone_and_load "https://github.com/demo/lib" "/lib"
           (staging_name specifications_path "/lib" k) (emit_all [] start).
Proof.
  assert (2 < 3) as Hfuel by lia.
  exact (DownloadComponent_search_ends_on_finite_disk GITHUB_PREFIX
           specifications_path 3 4%N start 0 "/lib"
           ["/specs"; "/specs/lib"] eq_refl eq_refl demo_disk_is_finite
           Hfuel).
Defined.
